(** * controlled-input: object paths, diagnostics, entities and [useEntity]

    A shallow embedding of the TypeScript sources

    - [objectPath.ts]  (construction, concatenation and prefix tests of paths),
    - [diagnostic.ts]  ([maxSeverity]),
    - [entity.ts]      (the [Entity] record and its static helpers),
    - [util.ts]        ([isNonVoid]),
    - [useEntity.ts]   (the React hook that owns an entity),

    together with the few functions of the JavaScript string API and of
    lodash ([trimEnd], [toPath], [sortBy]) these sources call.

    JavaScript strings are modelled by [string]; every character of the model
    is one code unit.  JavaScript numbers are modelled by [Z], which covers the
    integer-valued numbers whose decimal rendering is their digit string. *)

From Stdlib Require Import String Ascii List ZArith Bool Arith Lia DecimalString.
Import ListNotations.

Open Scope string_scope.

#[local] Set Warnings "-register-all".

(* ================================================================= *)
(** ** JavaScript values *)

(** The values a generic parameter [T] can be instantiated with, as far as
    the sources inspect them: only nullness, truthiness and identity matter. *)
Inductive JsVal : Type :=
| JUndefined
| JNull
| JBool (b : bool)
| JNum (n : Z)
| JStr (s : string)
| JObj (fields : list (string * JsVal)).

Module Js.

(** ToBoolean: [undefined], [null], [false], [0] and [''] are falsy, every
    object is truthy. *)
Definition truthy (v : JsVal) : bool :=
  match v with
  | JUndefined | JNull => false
  | JBool b => b
  | JNum n => negb (n =? 0)%Z
  | JStr s => negb (s =? "")
  | JObj _ => true
  end.

(** [a || b] *)
Definition or (a b : JsVal) : JsVal := if truthy a then a else b.

(** [v === null] *)
Definition isNull (v : JsVal) : bool :=
  match v with JNull => true | _ => false end.

(** [v === undefined] *)
Definition isUndefined (v : JsVal) : bool :=
  match v with JUndefined => true | _ => false end.

End Js.

(* ================================================================= *)
(** ** The part of [String.prototype] the sources use *)

Module JsString.

(** [s.startsWith(t)] *)
Definition startsWith (s t : string) : bool := String.prefix t s.

(** [s.endsWith(t)] *)
Definition endsWith (s t : string) : bool :=
  let n := String.length s in
  let m := String.length t in
  (m <=? n)%nat && (String.substring (n - m) m s =? t).

(** [s.substring(a, b)]: the arguments are swapped when [a > b] and
    clamped to the length of [s]. *)
Definition substring (s : string) (a b : nat) : string :=
  String.substring (Nat.min a b) (Nat.max a b - Nat.min a b) s.

(** [s.charAt(n)]: the empty string when [n] is out of range. *)
Definition charAt (s : string) (n : nat) : string :=
  match String.get n s with
  | Some c => String c ""
  | None => ""
  end.

(** [!s] *)
Definition isEmpty (s : string) : bool := s =? "".

End JsString.

(** [s.substring(0, s.length - 1)], as [concat] calls it *)
Definition dropLast (s : string) : string :=
  JsString.substring s 0 (String.length s - 1).

(** [xs.indexOf(x)] for an array compared with [===]; [-1] when absent. *)
Fixpoint indexOfFrom {A : Type} (eqb : A -> A -> bool) (i : Z) (xs : list A) (x : A) : Z :=
  match xs with
  | [] => (-1)%Z
  | y :: ys => if eqb y x then i else indexOfFrom eqb (i + 1)%Z ys x
  end.

Definition indexOf {A : Type} (eqb : A -> A -> bool) (xs : list A) (x : A) : Z :=
  indexOfFrom eqb 0%Z xs x.

(* ================================================================= *)
(** ** lodash *)

Module Lodash.

Definition inChars (c : ascii) (chars : string) : bool :=
  existsb (Ascii.eqb c) (list_ascii_of_string chars).

(** [trimEnd(s, chars)]: removes every trailing character of [s] that
    occurs in [chars]. *)
Fixpoint trimEnd (s chars : string) : string :=
  match s with
  | "" => ""
  | String c s' =>
      match trimEnd s' chars with
      | "" => if inChars c chars then "" else String c ""
      | r => String c r
      end
  end.

(** *** [toPath] on a string: [stringToPath]

    [[
    rePropName = /[^.[\]]+|\[(?:(-?\d+(?:\.\d+)?)|([Q'])((?:(?!\2)[^\\]|\\.)*?)\2)\]|(?=(?:\.|\[\])(?:\.|\[\]|$))/g
    reEscapeChar = /\\(\\)?/g
    ]]
    (Q stands for the double quote character.)

    [string.replace(rePropName, cb)] walks the string from left to right; at
    each position the three alternatives are tried in order, and the
    callback pushes one key per match. *)

Definition isDigit (c : ascii) : bool :=
  let n := nat_of_ascii c in (48 <=? n)%nat && (n <=? 57)%nat.

(** the characters excluded by the class [[^.[\]]] *)
Definition isPathPunct (c : ascii) : bool :=
  (c =? ".")%char || (c =? "[")%char || (c =? "]")%char.

(** the line terminators the regular expression [.] refuses *)
Definition isLineTerminator (c : ascii) : bool :=
  (nat_of_ascii c =? 10)%nat || (nat_of_ascii c =? 13)%nat.

(** the longest prefix whose characters satisfy [p], and the rest *)
Fixpoint span (p : ascii -> bool) (s : string) : string * string :=
  match s with
  | "" => ("", "")
  | String c s' =>
      if p c then let (run, rest) := span p s' in (String c run, rest)
      else ("", s)
  end.

(** [(-?\d+(?:\.\d+)?)\]] matched at the start of [s]: the captured number
    and what follows the bracket. *)
Definition matchNumber (s : string) : option (string * string) :=
  let (sign, s1) :=
    match s with
    | String c t => if (c =? "-")%char then ("-", t) else ("", s)
    | "" => ("", s)
    end in
  let (int, s2) := span isDigit s1 in
  if int =? "" then None
  else
    match s2 with
    | String "]" rest => Some (sign ++ int, rest)
    | String "." s3 =>
        let (frac, s4) := span isDigit s3 in
        if frac =? "" then None
        else
          match s4 with
          | String "]" rest => Some (sign ++ int ++ "." ++ frac, rest)
          | _ => None
          end
    | _ => None
    end.

(** [((?:(?!\2)[^\\]|\\.)*?)\2\]] matched at the start of [s], [q] being
    the opening quote: the captured substring and what follows the
    bracket.  A quote can only be consumed as the second half of an
    escape, so the first bare quote has to close the key. *)
Fixpoint matchQuoted (q : ascii) (s : string) : option (string * string) :=
  match s with
  | "" => None
  | String c s' =>
      if (c =? q)%char then
        match s' with
        | String "]" rest => Some ("", rest)
        | _ => None
        end
      else if (c =? "\")%char then
        match s' with
        | "" => None
        | String d s'' =>
            if isLineTerminator d then None
            else
              match matchQuoted q s'' with
              | Some (sub, rest) => Some (String c (String d sub), rest)
              | None => None
              end
        end
      else
        match matchQuoted q s' with
        | Some (sub, rest) => Some (String c sub, rest)
        | None => None
        end
  end.

(** [subString.replace(reEscapeChar, '$1')] *)
Fixpoint unescape (s : string) : string :=
  match s with
  | "" => ""
  | String c s' =>
      if (c =? "\")%char then
        match s' with
        | String "\" s'' => String "\" (unescape s'')
        | _ => unescape s'
        end
      else String c (unescape s')
  end.

(** the second alternative, after its opening bracket: the key pushed by
    the callback ([quote ? unescaped : number]) and the rest *)
Definition matchBracket (s : string) : option (string * string) :=
  match matchNumber s with
  | Some r => Some r
  | None =>
      match s with
      | String q s' =>
          if (q =? "034")%char || (q =? "'")%char then
            match matchQuoted q s' with
            | Some (sub, rest) => Some (unescape sub, rest)
            | None => None
            end
          else None
      | "" => None
      end
  end.

(** [(?:\.|\[\])] at the start of [s]: what follows it *)
Definition dotOrBrackets (s : string) : option string :=
  match s with
  | String c t =>
      if (c =? ".")%char then Some t
      else if (c =? "[")%char then
        match t with
        | String d u => if (d =? "]")%char then Some u else None
        | "" => None
        end
      else None
  | "" => None
  end.

(** the third alternative, [(?=(?:\.|\[\])(?:\.|\[\]|$))] *)
Definition emptyKeyAhead (s : string) : bool :=
  match dotOrBrackets s with
  | Some t =>
      match t with
      | "" => true
      | _ => match dotOrBrackets t with Some _ => true | None => false end
      end
  | None => false
  end.

(** The keys pushed while the global match loop runs over [s].  Every
    round consumes at least one character, so [length s] rounds suffice. *)
Fixpoint scanKeys (fuel : nat) (s : string) : list string :=
  match fuel with
  | O => []
  | S fuel' =>
      match s with
      | "" => []
      | String c s' =>
          if negb (isPathPunct c) then
            let (key, rest) := span (fun x => negb (isPathPunct x)) s in
            key :: scanKeys fuel' rest
          else
            match (if (c =? "[")%char then matchBracket s' else None) with
            | Some (key, rest) => key :: scanKeys fuel' rest
            | None =>
                if emptyKeyAhead s then "" :: scanKeys fuel' s'
                else scanKeys fuel' s'
            end
      end
  end.

Definition stringToPath (s : string) : list string :=
  ((match s with
    | String c _ => if (c =? ".")%char then [""] else []
    | "" => []
    end)
     ++ scanKeys (String.length s) s)%list.

(** [toPath(value)] for a string [value] *)
Definition toPath (s : string) : list string := stringToPath s.

(** *** [sortBy]: a stable sort by ascending key *)

Fixpoint insertBy {A : Type} (key : A -> Z) (x : A) (xs : list A) : list A :=
  match xs with
  | [] => [x]
  | y :: ys => if (key x <=? key y)%Z then x :: y :: ys else y :: insertBy key x ys
  end.

(** the elements are inserted from the right end, each in front of the
    keys that are not smaller, so equal keys keep their original order *)
Definition sortBy {A : Type} (xs : list A) (key : A -> Z) : list A :=
  fold_right (insertBy key) [] xs.

End Lodash.

(* ================================================================= *)
(** ** objectPath.ts *)

(** one argument of [create]: [string | number] *)
Inductive Part : Type :=
| PStr (s : string)
| PNum (n : Z).

Module ObjectPath.

(** [type ObjectPath = string & { __BRAND__ }] *)
Definition t : Type := string.

Definition EMPTY : t := "".

Definition DELIMITER : string := ".".

(** [[undefined, '.', '[']]; [None] stands for [undefined] *)
Definition ACCEPTABLE_SUFFIXES : list (option string) := [None; Some "."; Some "["].

(** [===] between an array element and a string *)
Definition suffixEqb (a b : option string) : bool :=
  match a, b with
  | None, None => true
  | Some x, Some y => x =? y
  | _, _ => false
  end.

(** [/^\d+$/.test(s)] *)
Definition allDigits (s : string) : bool :=
  negb (s =? "") && forallb Lodash.isDigit (list_ascii_of_string s).

(** the template rendering of an integer-valued number: its decimal
    digits.  That is what JavaScript prints for the safe integers (up to
    [2^53 - 1] in magnitude); beyond them a number is printed rounded, and
    from [1e21] on in exponent notation, which this rendering does not
    follow. *)
Definition numberToString (n : Z) : string := NilZero.string_of_int (Z.to_int n).

Definition createPart (part : Part) : t :=
  match part with
  | PStr s =>
      if s =? "" then EMPTY
      else if allDigits s then "[" ++ s ++ "]"
      else s ++ "."
  | PNum n => "[" ++ numberToString n ++ "]"
  end.

Definition concat (left right : t) : t :=
  if JsString.isEmpty left then right
  else if JsString.isEmpty right then left
  else
    let endsOnDelimiter := JsString.endsWith left DELIMITER in
    let needsLeadingDelimiter := negb (JsString.startsWith right "[") in
    if endsOnDelimiter && negb needsLeadingDelimiter then
      JsString.substring left 0 (String.length left - 1) ++ right
    else if needsLeadingDelimiter && negb endsOnDelimiter then
      left ++ DELIMITER ++ right
    else left ++ right.

Definition extend (path : t) (and : Part) : t := concat path (createPart and).

Definition prefix (path : t) (prefixVal : Part) : t := concat (createPart prefixVal) path.

(** [parts.reduce((s, v) => extend(s, v), EMPTY)] *)
Definition create (parts : list Part) : t := fold_left extend parts EMPTY.

Definition fromArray (parts : list Part) : t := create parts.

Definition startsWith (path prefixVal : t) : bool :=
  if prefixVal =? EMPTY then true
  else if JsString.endsWith prefixVal DELIMITER then
    let trimmedPath := Lodash.trimEnd prefixVal DELIMITER in
    if negb (JsString.startsWith path trimmedPath) then false
    else
      let charAfter := JsString.charAt path (String.length trimmedPath) in
      negb (indexOf suffixEqb ACCEPTABLE_SUFFIXES (Some charAfter) =? -1)%Z
  else JsString.startsWith path prefixVal.

Definition toString (path : t) : string := Lodash.trimEnd path DELIMITER.

(** [toPath] only produces strings, also for index segments *)
Definition toArray (path : t) : list Part := map PStr (Lodash.toPath (toString path)).

End ObjectPath.

(** What [concat] puts in front of a non-empty [right]: [left] with its
    delimiter dropped, added or kept. *)
Definition glue (left right : string) : string :=
  let endsOnDelimiter := JsString.endsWith left ObjectPath.DELIMITER in
  let needsLeadingDelimiter := negb (JsString.startsWith right "[") in
  if endsOnDelimiter && negb needsLeadingDelimiter then dropLast left
  else if needsLeadingDelimiter && negb endsOnDelimiter then left ++ ObjectPath.DELIMITER
  else left.

(** *** The text of a path built from well-behaved parts *)

Definition allChars (p : ascii -> bool) (s : string) : bool :=
  forallb p (list_ascii_of_string s).

(** [X] is empty or opens with a character that fails [p] *)
Definition boundary (p : ascii -> bool) (X : string) : bool :=
  match X with
  | "" => true
  | String c _ => negb (p c)
  end.

Definition notPunct (c : ascii) : bool := negb (Lodash.isPathPunct c).

Definition notDot (c : ascii) : bool := negb (Lodash.inChars c ObjectPath.DELIMITER).

(** the keys the number alternative of [rePropName] accepts without a
    fraction *)
Definition numericKey (k : string) : bool :=
  match k with
  | String c d => if (c =? "-")%char then ObjectPath.allDigits d else ObjectPath.allDigits k
  | "" => false
  end.

(** a field name [toPath] reads back as one key: not empty and free of the
    delimiter and of brackets *)
Definition safeName (s : string) : bool :=
  negb (s =? "") && allChars notPunct s.

Definition safePart (part : Part) : bool :=
  match part with
  | PStr s => safeName s
  | PNum _ => true
  end.

(** [Number.isSafeInteger(n)]: the integers JavaScript prints digit by
    digit *)
Definition isSafeInteger (n : Z) : bool := (Z.abs n <=? 9007199254740991)%Z.

(** a part [toPath] reads back as one key: a field name as above, or an
    index that is a safe integer *)
Definition readablePart (part : Part) : bool :=
  safePart part
  && match part with
     | PStr _ => true
     | PNum n => isSafeInteger n
     end.

(** the parts [createPart] renders between brackets *)
Definition isIndexPart (part : Part) : bool :=
  match part with
  | PStr s => ObjectPath.allDigits s
  | PNum _ => true
  end.

(** the string a part stands for *)
Definition partKey (part : Part) : string :=
  match part with
  | PStr s => s
  | PNum n => ObjectPath.numberToString n
  end.

Definition headText (part : Part) : string :=
  if isIndexPart part then "[" ++ partKey part ++ "]" else partKey part.

(** the delimiter in front of a part that follows another one *)
Definition leadText (part : Part) : string :=
  if isIndexPart part then "" else ".".

(** the internal form of a path, with the trailing delimiter of a last
    field name *)
Fixpoint pathText (parts : list Part) : string :=
  match parts with
  | [] => ""
  | p :: ps =>
      headText p ++
        match ps with
        | [] => leadText p
        | q :: _ => leadText q ++ pathText ps
        end
  end.

(** the displayed form of a path *)
Fixpoint shownText (parts : list Part) : string :=
  match parts with
  | [] => ""
  | p :: ps =>
      headText p ++
        match ps with
        | [] => ""
        | q :: _ => leadText q ++ shownText ps
        end
  end.

(* ================================================================= *)
(** ** severity.ts and diagnostic.ts *)

(** Modelled from the spec: the enumeration [Severity] (severity.ts), an
    ordered enumeration with Error < Warning < Info, a lower ordinal being
    more severe. *)
Inductive Severity : Type := Error | Warning | Info.

Module Severity.

(** Modelled from the spec: the ordinals of [Severity], in declaration
    order. *)
Definition ordinal (s : Severity) : Z :=
  match s with
  | Error => 0
  | Warning => 1
  | Info => 2
  end%Z.

Definition eqb (a b : Severity) : bool := (ordinal a =? ordinal b)%Z.

End Severity.

Inductive DiagnosticData : Type :=
| MkDiagnosticData (message type : string) (severity : Severity)
                   (next : option DiagnosticData).

Module Diagnostic.

Record t : Type := Make {
  message : string;
  type : string;
  severity : Severity;
  next : option DiagnosticData;
  path : ObjectPath.t
}.

Definition isFor (d : t) (pathPrefix : ObjectPath.t) : bool :=
  ObjectPath.startsWith (path d) pathPrefix.

End Diagnostic.

(** [maxSeverity]: [sortBy(diagnostics, d => d.severity)[0].severity], or
    [null] for an absent or empty list. *)
Definition maxSeverity (diagnostics : option (list Diagnostic.t)) : option Severity :=
  match diagnostics with
  | None => None
  | Some ds =>
      if (List.length ds =? 0)%nat then None
      else
        match Lodash.sortBy ds (fun d => Severity.ordinal (Diagnostic.severity d)) with
        | d :: _ => Some (Diagnostic.severity d)
        | [] => None
        end
  end.

(** How a caller sees the values involved, as JavaScript values: a member of
    a numeric enumeration is its ordinal, a diagnostic is an object. *)
Definition severityValue (s : Severity) : JsVal := JNum (Severity.ordinal s).

Fixpoint diagnosticDataFields (d : DiagnosticData) : list (string * JsVal) :=
  match d with
  | MkDiagnosticData m ty sev nx =>
      [("message", JStr m); ("type", JStr ty); ("severity", severityValue sev)]
        ++ match nx with
           | Some n => [("next", JObj (diagnosticDataFields n))]
           | None => []
           end
  end%list.

Definition diagnosticValue (d : Diagnostic.t) : JsVal :=
  JObj ([("message", JStr (Diagnostic.message d));
         ("type", JStr (Diagnostic.type d));
         ("severity", severityValue (Diagnostic.severity d))]
          ++ match Diagnostic.next d with
             | Some n => [("next", JObj (diagnosticDataFields n))]
             | None => []
             end
          ++ [("path", JStr (Diagnostic.path d))])%list.

(** the value [maxSeverity] hands back: [Severity | null] *)
Definition maxSeverityValue (diagnostics : option (list Diagnostic.t)) : JsVal :=
  match maxSeverity diagnostics with
  | Some s => severityValue s
  | None => JNull
  end.

(* ================================================================= *)
(** ** util.ts *)

Definition isNonVoid (value : JsVal) : bool :=
  negb (Js.isNull value) && negb (Js.isUndefined value).

(* ================================================================= *)
(** ** entity.ts *)

Module Entity.

(** [Entity<T>]; the optional flags are [None] when the property is
    absent. *)
Record t : Type := Make {
  draft : JsVal;
  saved : JsVal;
  diagnostics : list Diagnostic.t;
  isSaving : option bool;
  isDeleting : option bool
}.

Definition isNew (entity : t) : bool := Js.isNull (saved entity).

Definition isSaved (entity : t) : bool := negb (Js.isNull (saved entity)).

(** [(entity.draft || entity.saved)] *)
Definition latestValue (entity : t) : JsVal := Js.or (draft entity) (saved entity).

Definition hasErrors (entity : t) : bool :=
  existsb (fun d => Severity.eqb (Diagnostic.severity d) Error) (diagnostics entity).

Definition createUnsaved (draft : JsVal) : t :=
  {| draft := draft; diagnostics := []; saved := JNull;
     isSaving := None; isDeleting := None |}.

Definition createSaved (saved : JsVal) : t :=
  {| draft := JNull; diagnostics := []; saved := saved;
     isSaving := None; isDeleting := None |}.

(** object spread with one property replaced *)
Definition withDraft (e : t) (v : JsVal) : t :=
  {| draft := v; saved := saved e; diagnostics := diagnostics e;
     isSaving := isSaving e; isDeleting := isDeleting e |}.

Definition withSaved (e : t) (v : JsVal) : t :=
  {| draft := draft e; saved := v; diagnostics := diagnostics e;
     isSaving := isSaving e; isDeleting := isDeleting e |}.

Definition withDiagnostics (e : t) (ds : list Diagnostic.t) : t :=
  {| draft := draft e; saved := saved e; diagnostics := ds;
     isSaving := isSaving e; isDeleting := isDeleting e |}.

Definition withIsSaving (e : t) (b : bool) : t :=
  {| draft := draft e; saved := saved e; diagnostics := diagnostics e;
     isSaving := Some b; isDeleting := isDeleting e |}.

(** the mode invariant of the type [NewEntity<T> | SavedEntity<T>]: the
    entity is new (no saved value, a draft) or saved (a saved value) *)
Definition wellModed (e : t) : bool :=
  (Js.isNull (saved e) && negb (Js.isNull (draft e)))
  || negb (Js.isNull (saved e)).

Definition bothNull (e : t) : bool :=
  Js.isNull (draft e) && Js.isNull (saved e).

End Entity.

(* ================================================================= *)
(** ** useEntity.ts *)

(** A validator is a function; [vid] stands for its identity, which the
    hook compares with [!==]. *)
Record Validator : Type := MkValidator {
  vid : nat;
  run : JsVal -> list Diagnostic.t
}.

Definition noValidations : Validator := {| vid := 0; run := fun _ => [] |}.

(** how the promise handed to [save] settles *)
Inductive Settlement : Type :=
| Resolved (fromPromise : JsVal)
| Rejected (e : JsVal).

(** how the promise returned by [save] settles *)
Inductive SaveResult : Type :=
| Fulfilled
| RejectedWith (e : JsVal).

Module UseEntity.

(** The cells of one hook instance: the React state ([setInner] writes
    it, the next render reads it into [inner]), and the three refs. *)
Record Hook : Type := MkHook {
  state : Entity.t;
  liveEntity : Entity.t;
  liveValidator : Validator;
  isUnmounted : bool
}.

Definition setInner (e : Entity.t) (h : Hook) : Hook :=
  {| state := e; liveEntity := liveEntity h;
     liveValidator := liveValidator h; isUnmounted := isUnmounted h |}.

(** the first render: [useState]'s initialiser, then the refs *)
Definition mount (initialValue : JsVal) (isSaved : bool) (validator : Validator) : Hook :=
  let inner :=
    Entity.withDiagnostics
      (if isSaved then Entity.createSaved initialValue
       else Entity.createUnsaved initialValue)
      (run validator initialValue) in
  {| state := inner; liveEntity := inner;
     liveValidator := validator; isUnmounted := false |}.

(** a later render with the validator passed this time; a changed
    validator sets the state during the render, which React answers with
    an immediate second render *)
Definition render (validator : Validator) (h : Hook) : Hook :=
  let inner := state h in
  let inner' :=
    if negb (vid validator =? vid (liveValidator h))%nat then
      Entity.withDiagnostics inner (run validator (Entity.latestValue inner))
    else inner in
  {| state := inner'; liveEntity := inner';
     liveValidator := validator; isUnmounted := isUnmounted h |}.

(** the cleanup of the effect *)
Definition unmount (h : Hook) : Hook :=
  {| state := state h; liveEntity := liveEntity h;
     liveValidator := liveValidator h; isUnmounted := true |}.

Definition update (newValue : JsVal) (h : Hook) : Hook :=
  setInner
    (Entity.withDiagnostics (Entity.withDraft (liveEntity h) newValue)
       (run (liveValidator h) newValue))
    h.

Definition updateSaved (value : JsVal) (h : Hook) : Hook :=
  setInner (Entity.withSaved (liveEntity h) value) h.

Definition setSaving (isSaving : bool) (h : Hook) : Hook :=
  setInner (Entity.withIsSaving (liveEntity h) isSaving) h.

(** [save] up to its [await]: the captured [valueAtSaveTime] and the hook
    with the saving flag raised *)
Definition saveBegin (h : Hook) : JsVal * Hook :=
  (Entity.latestValue (liveEntity h),
   setInner (Entity.withIsSaving (liveEntity h) true) h).

(** [save] from its [await] on, once [savePromise] has settled *)
Definition saveSettle (valueAtSaveTime : JsVal) (outcome : Settlement) (h : Hook)
  : Hook * SaveResult :=
  match outcome with
  | Resolved fromPromise =>
      if isUnmounted h then (h, Fulfilled)
      else
        let current := liveEntity h in
        let saved := if isNonVoid fromPromise then fromPromise else valueAtSaveTime in
        (setInner
           {| Entity.isSaving := Some false;
              Entity.draft := JNull;
              Entity.saved := saved;
              Entity.diagnostics := run (liveValidator h) saved;
              Entity.isDeleting := Entity.isDeleting current |}
           h,
         Fulfilled)
  | Rejected e =>
      ((if negb (isUnmounted h)
        then setInner (Entity.withIsSaving (liveEntity h) false) h
        else h),
       RejectedWith e)
  end.

(** a whole [save] whose promise settles with no other call in between;
    [rendered] tells whether React rendered before the settlement *)
Definition save (outcome : Settlement) (rendered : bool) (h : Hook) : Hook * SaveResult :=
  let (valueAtSaveTime, h1) := saveBegin h in
  let h2 := if rendered then render (liveValidator h1) h1 else h1 in
  saveSettle valueAtSaveTime outcome h2.

(** what the caller of another method can do between two renders *)
Inductive Call : Type :=
| CUpdate (newValue : JsVal)
| CUpdateSaved (value : JsVal)
| CSetSaving (isSaving : bool)
| CSave (outcome : Settlement).

(** one call followed by the render it triggers *)
Definition step (c : Call) (h : Hook) : Hook :=
  let h' :=
    match c with
    | CUpdate v => update v h
    | CUpdateSaved v => updateSaved v h
    | CSetSaving b => setSaving b h
    | CSave outcome => fst (save outcome true h)
    end in
  render (liveValidator h') h'.

Definition steps (cs : list Call) (h : Hook) : Hook :=
  fold_left (fun acc c => step c acc) cs h.

(** *** Calls whose values are never falsy *)

Definition nullOrTruthy (v : JsVal) : bool := Js.isNull v || Js.truthy v.

(** every value handed to the hook is truthy, a void result of the save
    promise apart *)
Definition callTruthy (c : Call) : bool :=
  match c with
  | CUpdate v | CUpdateSaved v => Js.truthy v
  | CSetSaving _ => true
  | CSave (Resolved r) => negb (isNonVoid r) || Js.truthy r
  | CSave (Rejected _) => true
  end.

(** the mode invariant on entities whose values are never falsy *)
Definition truthyModed (e : Entity.t) : bool :=
  nullOrTruthy (Entity.draft e) && nullOrTruthy (Entity.saved e)
  && negb (Entity.bothNull e).

End UseEntity.

(* ================================================================= *)
(** ** Values used in the scenarios *)

(** the object [{a: n}] *)
Definition objA (n : Z) : JsVal := JObj [("a", JNum n)].

Definition errorEntry : Diagnostic.t :=
  {| Diagnostic.message := "is required";
     Diagnostic.type := "required";
     Diagnostic.severity := Error;
     Diagnostic.next := None;
     Diagnostic.path := ObjectPath.create [PStr "name"] |}.

Definition warningEntry : Diagnostic.t :=
  {| Diagnostic.message := "is long";
     Diagnostic.type := "maxLength";
     Diagnostic.severity := Warning;
     Diagnostic.next := None;
     Diagnostic.path := ObjectPath.create [PStr "name"] |}.

(** an entity with draft [{a: 1}] and saved [{a: 0}], as the hook holds it
    after [update({a: 1})] on a saved [{a: 0}] *)
Definition editedHook : UseEntity.Hook :=
  UseEntity.render noValidations
    (UseEntity.update (objA 1) (UseEntity.mount (objA 0) true noValidations)).

(* ================================================================= *)
(** ** The rest of diagnostic.ts *)

Module DiagnosticKey.

(** [DiagnosticKey.of]: [[ObjectPath.toString(path), type].join('--')] *)
Definition of_ (d : Diagnostic.t) : string :=
  String.concat "--" [ObjectPath.toString (Diagnostic.path d); Diagnostic.type d].

End DiagnosticKey.

Definition dashFree (s : string) : bool := allChars (fun c => negb (c =? "-")%char) s.

(** the parts [fromArray] rebuilds from what [toArray] returns: field names
    that are read back whole, and indices that are safe integers and not
    negative *)
Definition roundTripPart (part : Part) : bool :=
  safePart part
  && match part with
     | PStr _ => true
     | PNum n => (0 <=? n)%Z && isSafeInteger n
     end.

(* ================================================================= *)
(** ** showsDiagnostics.ts *)

(** [ShowsDiagnostics]: both properties are optional *)
Record ShowsDiagnostics : Type := MkShowsDiagnostics {
  propsDiagnostics : option (list Diagnostic.t);
  modelPath : option ObjectPath.t
}.

Definition diagnosticsFor (msgs : list Diagnostic.t) (pathPrefix : ObjectPath.t)
  : list Diagnostic.t :=
  if pathPrefix =? ObjectPath.EMPTY then msgs
  else filter (fun d => Diagnostic.isFor d pathPrefix) msgs.

(** [modelPath || ObjectPath.EMPTY] *)
Definition modelPathOrEmpty (props : ShowsDiagnostics) : ObjectPath.t :=
  match modelPath props with
  | Some m => if JsString.isEmpty m then ObjectPath.EMPTY else m
  | None => ObjectPath.EMPTY
  end.

(** [diagnosticGetterImplementation(props)(prop)], which is also
    [useDiagnosticsGetter] and, on [c.props], [diagnosticsGetterFor] *)
Definition diagnosticGetterImplementation (props : ShowsDiagnostics) (prop : string)
  : list Diagnostic.t :=
  match propsDiagnostics props with
  | None => []
  | Some diagnostics =>
      if (List.length diagnostics =? 0)%nat then []
      else
        diagnosticsFor diagnostics
          (ObjectPath.extend (modelPathOrEmpty props) (PStr prop))
  end.

(* ================================================================= *)
(** ** validator.ts

    [validateProperty] assigns to the [path] property of the diagnostics
    its validator returned.  Diagnostics are therefore objects in a store,
    an array of diagnostics is a list of references, and a validator is a
    function that may allocate. *)

Module Store.

Definition Ref : Type := nat.

(** the diagnostic objects allocated so far, by address *)
Definition t : Type := list Diagnostic.t.

Definition get (h : t) (r : Ref) : option Diagnostic.t := nth_error h r.

(** the objects behind an array of references *)
Definition getAll (h : t) (rs : list Ref) : list (option Diagnostic.t) := map (get h) rs.

(** an assignment to a property of the object at [r] *)
Fixpoint modify (h : t) (r : Ref) (f : Diagnostic.t -> Diagnostic.t) : t :=
  match h with
  | [] => []
  | d :: h' =>
      match r with
      | O => f d :: h'
      | S r' => d :: modify h' r' f
      end
  end.

End Store.

(** [{...d, path}] *)
Definition withPath (d : Diagnostic.t) (p : ObjectPath.t) : Diagnostic.t :=
  {| Diagnostic.message := Diagnostic.message d;
     Diagnostic.type := Diagnostic.type d;
     Diagnostic.severity := Diagnostic.severity d;
     Diagnostic.next := Diagnostic.next d;
     Diagnostic.path := p |}.

(** [Validator<T>], on the store *)
Definition StoreValidator (T : Type) : Type :=
  T -> Store.t -> list Store.Ref * Store.t.

(** [v.path = ObjectPath.prefix(v.path, propName)] *)
Definition prefixPath (propName : Part) (d : Diagnostic.t) : Diagnostic.t :=
  withPath d (ObjectPath.prefix (Diagnostic.path d) propName).

Definition validateProperty {T : Type}
  (propName : Part) (validator : StoreValidator T) (value : T) (h : Store.t)
  : list Store.Ref * Store.t :=
  let (diagnostics, h1) := validator value h in
  (diagnostics,
   fold_left (fun hp v => Store.modify hp v (prefixPath propName)) diagnostics h1).

Module StoreValidators.

(** [flatMap(items, (v, i) => validateProperty(i, validator, v))], from
    index [i] on *)
Fixpoint forListFrom {T : Type} (i : nat) (validator : StoreValidator T)
  (items : list T) (h : Store.t) : list Store.Ref * Store.t :=
  match items with
  | [] => ([], h)
  | v :: rest =>
      let (ds, h1) := validateProperty (PNum (Z.of_nat i)) validator v h in
      let (more, h2) := forListFrom (S i) validator rest h1 in
      ((ds ++ more)%list, h2)
  end.

Definition forList {T : Type} (validator : StoreValidator T) : StoreValidator (list T) :=
  forListFrom 0 validator.

(** [flatMap(validators, fn => fn(val))] *)
Fixpoint combine {T : Type} (validators : list (StoreValidator T)) (val : T) (h : Store.t)
  : list Store.Ref * Store.t :=
  match validators with
  | [] => ([], h)
  | fn :: rest =>
      let (ds, h1) := fn val h in
      let (more, h2) := combine rest val h1 in
      ((ds ++ more)%list, h2)
  end.

End StoreValidators.

(** A validator that builds its diagnostics anew on every run: the objects
    are allocated at the end of the store, one after the other. *)
Definition allocating {T : Type} (f : T -> list Diagnostic.t) : StoreValidator T :=
  fun value h => (seq (List.length h) (List.length (f value)), (h ++ f value)%list).

(** the lists [f i x] for the elements [x] at index [i], [i + 1], ...,
    concatenated *)
Fixpoint flatMapFrom {A B : Type} (f : nat -> A -> list B) (i : nat) (xs : list A) : list B :=
  match xs with
  | [] => []
  | x :: rest => (f i x ++ flatMapFrom f (S i) rest)%list
  end.

(* ================================================================= *)
(** ** Objects as records of named properties *)

Module JsObject.

(** the value of the own property [k], the first entry for [k] *)
Fixpoint getField (k : string) (fields : list (string * JsVal)) : option JsVal :=
  match fields with
  | [] => None
  | (k', v) :: rest => if k' =? k then Some v else getField k rest
  end.

(** [fields[k] = v]: an existing property keeps its place, a new one goes
    last *)
Fixpoint setField (k : string) (v : JsVal) (fields : list (string * JsVal))
  : list (string * JsVal) :=
  match fields with
  | [] => [(k, v)]
  | (k', v') :: rest =>
      if k' =? k then (k', v) :: rest else (k', v') :: setField k v rest
  end.

(** the characters of a string as properties [0], [1], ... *)
Fixpoint charFields (i : nat) (s : string) : list (string * JsVal) :=
  match s with
  | "" => []
  | String c rest =>
      (NilZero.string_of_uint (Nat.to_uint i), JStr (String c "")) :: charFields (S i) rest
  end.

(** the own enumerable properties [{...v}] copies *)
Definition spread (v : JsVal) : list (string * JsVal) :=
  match v with
  | JObj fields => fields
  | JStr s => charFields 0 s
  | _ => []
  end.

End JsObject.

(** lodash [isEqual] on the values of the model: primitives are compared
    with [===], objects property by property whatever the order *)
Fixpoint isEqual (a b : JsVal) : bool :=
  match a, b with
  | JUndefined, JUndefined => true
  | JNull, JNull => true
  | JBool x, JBool y => Bool.eqb x y
  | JNum x, JNum y => (x =? y)%Z
  | JStr x, JStr y => x =? y
  | JObj fa, JObj fb =>
      (List.length fa =? List.length fb)%nat
      && forallb
           (fun kv =>
              match kv with
              | (k, v) =>
                  match JsObject.getField k fb with
                  | Some v' => isEqual v v'
                  | None => false
                  end
              end)
           fa
  | _, _ => false
  end.

(** [Entity.hasUnsavedChanges]: [draft !== null && !isEqual(draft, saved)] *)
Definition hasUnsavedChanges (e : Entity.t) : bool :=
  negb (Js.isNull (Entity.draft e)) && negb (isEqual (Entity.draft e) (Entity.saved e)).

(* ================================================================= *)
(** ** The change handlers *)

(** what a handler does when it runs: nothing, one call of [onChange], or
    a thrown [MissingFieldError] *)
Inductive Emitted : Type :=
| NoCall
| Calls (onChange : nat) (newVal : JsVal) (name : option string)
| ThrowsMissingFieldError.

Module ControlledInput.

(** [ControlledInput<T>]; [onChange] is a function, known by its identity *)
Record t : Type := Make {
  name : option string;
  onChange : option nat;
  value : JsVal;
  disabled : option bool
}.

(** [disabled || !onChange] *)
Definition inert (props : t) : bool :=
  match disabled props with
  | Some true => true
  | _ => match onChange props with None => true | Some _ => false end
  end.

End ControlledInput.

Definition replaceChangeHandlerImplementation (props : ControlledInput.t) (val : JsVal)
  : Emitted :=
  if ControlledInput.inert props then NoCall
  else
    match ControlledInput.onChange props with
    | Some onChange => Calls onChange val (ControlledInput.name props)
    | None => NoCall
    end.

Definition fieldChangeHandlerImplementation
  (props : ControlledInput.t) (val : JsVal) (fieldName : option string) : Emitted :=
  if ControlledInput.inert props then NoCall
  else
    match fieldName with
    | None => ThrowsMissingFieldError
    | Some k =>
        match ControlledInput.onChange props with
        | Some onChange =>
            Calls onChange
              (JObj (JsObject.setField k val (JsObject.spread (ControlledInput.value props))))
              (ControlledInput.name props)
        | None => NoCall
        end
    end.

(* ================================================================= *)
(** ** Calls of the hook's methods without a render in between *)

Inductive Method : Type :=
| MUpdate (newValue : JsVal)
| MUpdateSaved (value : JsVal)
| MSetSaving (isSaving : bool)
| MSaveBegin
| MSaveSettle (valueAtSaveTime : JsVal) (outcome : Settlement).

Definition invoke (m : Method) (h : UseEntity.Hook) : UseEntity.Hook :=
  match m with
  | MUpdate v => UseEntity.update v h
  | MUpdateSaved v => UseEntity.updateSaved v h
  | MSetSaving b => UseEntity.setSaving b h
  | MSaveBegin => snd (UseEntity.saveBegin h)
  | MSaveSettle v outcome => fst (UseEntity.saveSettle v outcome h)
  end.

(** no string occurs twice *)
Fixpoint distinct (ks : list string) : bool :=
  match ks with
  | [] => true
  | k :: rest => negb (existsb (String.eqb k) rest) && distinct rest
  end.

(** a value whose objects, at every depth, name each property once *)
Fixpoint distinctKeys (v : JsVal) : bool :=
  match v with
  | JObj fields =>
      distinct (map fst fields)
      && forallb (fun kv => match kv with (_, x) => distinctKeys x end) fields
  | _ => true
  end.

(** [Diagnostic.flattenMessages], on the nested diagnostic data and on a
    diagnostic *)
Fixpoint flattenDataMessages (d : DiagnosticData) : list string :=
  match d with
  | MkDiagnosticData message _ _ next =>
      match next with
      | None => [message]
      | Some n => message :: flattenDataMessages n
      end
  end.

Definition flattenMessages (d : Diagnostic.t) : list string :=
  match Diagnostic.next d with
  | None => [Diagnostic.message d]
  | Some n => Diagnostic.message d :: flattenDataMessages n
  end.

(* ================================================================= *)
(** * Properties *)

(** ** Strings *)

Section StringFacts.

Lemma append_nil_r (s : string) : s ++ "" = s.
Proof. induction s as [|c s IH]; simpl; [reflexivity | now rewrite IH]. Qed.

Lemma append_assoc (a b c : string) : (a ++ b) ++ c = a ++ (b ++ c).
Proof. induction a as [|x a IH]; simpl; [reflexivity | now rewrite IH]. Qed.

Lemma append_eq_nil (a b : string) : a ++ b = "" -> a = "" /\ b = "".
Proof. destruct a; simpl; [auto | discriminate]. Qed.

Lemma length_append (a b : string) :
  String.length (a ++ b) = String.length a + String.length b.
Proof. induction a as [|x a IH]; simpl; [reflexivity | now rewrite IH]. Qed.

Lemma isEmpty_true (s : string) : JsString.isEmpty s = true <-> s = "".
Proof. unfold JsString.isEmpty. apply String.eqb_eq. Qed.

Lemma isEmpty_false (s : string) : JsString.isEmpty s = false <-> s <> "".
Proof. unfold JsString.isEmpty. apply String.eqb_neq. Qed.

(** [s.startsWith(t)] holds exactly when [t] opens [s]. *)
Lemma startsWith_split (s t : string) :
  JsString.startsWith s t = true <-> exists rest, s = t ++ rest.
Proof.
  unfold JsString.startsWith. revert s.
  induction t as [|c t IH]; intros s.
  - split; [intros _; exists s; reflexivity | intros _; destruct s; reflexivity].
  - destruct s as [|d s]; simpl.
    + split; [discriminate | intros [r Hr]; discriminate].
    + destruct (ascii_dec c d) as [->|Hcd].
      * rewrite IH. split; intros [r Hr]; exists r; [now rewrite Hr | now inversion Hr].
      * split; [discriminate | intros [r Hr]; inversion Hr; congruence].
Qed.

Lemma startsWith_app (t rest : string) : JsString.startsWith (t ++ rest) t = true.
Proof. apply startsWith_split. now exists rest. Qed.

(** the first character decides [startsWith] against one character *)
Lemma startsWith_char (s : string) (c : ascii) :
  JsString.startsWith s (String c "") =
  match s with String d _ => (c =? d)%char | "" => false end.
Proof.
  unfold JsString.startsWith. destruct s as [|d s]; simpl; [reflexivity|].
  destruct (ascii_dec c d) as [->|H].
  - rewrite Ascii.eqb_refl. now destruct s.
  - apply Ascii.eqb_neq in H. now rewrite H.
Qed.

Lemma charAt_after (t rest : string) :
  JsString.charAt (t ++ rest) (String.length t) =
  match rest with String c _ => String c "" | "" => "" end.
Proof.
  unfold JsString.charAt. induction t as [|x t IH]; simpl.
  - now destruct rest.
  - exact IH.
Qed.

(** the last character decides [endsWith] against one character *)
Lemma endsWith_char_cons (c d : ascii) (s : string) :
  JsString.endsWith (String d s) (String c "") =
  match s with
  | "" => (d =? c)%char
  | _ => JsString.endsWith s (String c "")
  end.
Proof.
  unfold JsString.endsWith. simpl String.length.
  destruct s as [|e s].
  - simpl. now destruct (Ascii.eqb_spec d c).
  - simpl String.length. replace (S (S (String.length s)) - 1) with (S (String.length s)) by lia.
    replace (S (String.length s) - 1) with (String.length s) by lia.
    reflexivity.
Qed.

Lemma endsWith_char_nil (c : ascii) : JsString.endsWith "" (String c "") = false.
Proof. reflexivity. Qed.

Lemma endsWith_char_app (a b : string) (c : ascii) :
  b <> "" ->
  JsString.endsWith (a ++ b) (String c "") = JsString.endsWith b (String c "").
Proof.
  intros Hb. induction a as [|x a IH]; [reflexivity|].
  simpl. rewrite endsWith_char_cons.
  destruct (a ++ b) eqn:E; [|exact IH].
  apply append_eq_nil in E. tauto.
Qed.

Lemma endsWith_char_snoc (a : string) (c : ascii) :
  JsString.endsWith (a ++ String c "") (String c "") = true.
Proof.
  rewrite endsWith_char_app by discriminate.
  rewrite endsWith_char_cons. apply Ascii.eqb_refl.
Qed.

Lemma dropLast_cons (d : ascii) (s : string) :
  dropLast (String d s) = match s with "" => "" | _ => String d (dropLast s) end.
Proof.
  unfold dropLast, JsString.substring. simpl String.length.
  rewrite !Nat.min_0_l, !Nat.max_0_l, !Nat.sub_0_r.
  destruct s as [|e s]; [reflexivity|].
  simpl String.length. replace (S (S (String.length s)) - 1) with (S (String.length s)) by lia.
  replace (S (String.length s) - 1) with (String.length s) by lia.
  reflexivity.
Qed.

Lemma dropLast_app (a b : string) :
  b <> "" -> dropLast (a ++ b) = a ++ dropLast b.
Proof.
  intros Hb. induction a as [|x a IH]; [reflexivity|].
  simpl. rewrite dropLast_cons, IH.
  destruct (a ++ b) eqn:E; [|reflexivity].
  apply append_eq_nil in E. tauto.
Qed.

Lemma dropLast_snoc (a : string) (c : ascii) : dropLast (a ++ String c "") = a.
Proof.
  rewrite dropLast_app by discriminate.
  rewrite dropLast_cons. apply append_nil_r.
Qed.

(** a string that ends on [c] is its [dropLast] followed by [c] *)
Lemma endsWith_char_split (s : string) (c : ascii) :
  JsString.endsWith s (String c "") = true -> s = dropLast s ++ String c "".
Proof.
  induction s as [|d s IH]; [discriminate|].
  rewrite endsWith_char_cons, dropLast_cons.
  destruct s as [|e s].
  - intros H. apply Ascii.eqb_eq in H. now subst.
  - intros H. simpl. f_equal. now apply IH.
Qed.

End StringFacts.

(** ** Concatenation of object paths *)

Section ConcatFacts.

Import ObjectPath.

Lemma concat_empty_l (p : t) : concat EMPTY p = p.
Proof. reflexivity. Qed.

Lemma concat_empty_r (p : t) : concat p EMPTY = p.
Proof. unfold concat. destruct p; reflexivity. Qed.

Lemma concat_glue (a b : t) :
  a <> "" -> b <> "" -> concat a b = glue a b ++ b.
Proof.
  intros Ha Hb. unfold concat, glue.
  apply isEmpty_false in Ha, Hb. rewrite Ha, Hb. fold (dropLast a).
  destruct (JsString.endsWith a DELIMITER), (JsString.startsWith b "[");
    simpl; try reflexivity.
  now rewrite append_assoc.
Qed.

Lemma concat_nonempty (a b : t) : b <> "" -> concat a b <> "".
Proof.
  intros Hb. destruct a as [|x a]; [exact Hb|].
  rewrite concat_glue by (discriminate || assumption).
  intros E. apply append_eq_nil in E. tauto.
Qed.

(** [glue] looks at its right operand only through its first character. *)
Lemma glue_ext (a b b' : t) :
  JsString.startsWith b "[" = JsString.startsWith b' "[" -> glue a b = glue a b'.
Proof. unfold glue. now intros ->. Qed.

Lemma startsWith_char_app (a b : string) (c : ascii) :
  a <> "" ->
  JsString.startsWith (a ++ b) (String c "") = JsString.startsWith a (String c "").
Proof. intros Ha. rewrite !startsWith_char. destruct a; [congruence | reflexivity]. Qed.

(** Unless [a] is the bare delimiter, [glue a b] keeps the first character
    of [a]. *)
Lemma glue_head (a b : t) :
  a <> "" -> a <> "." ->
  glue a b <> "" /\ JsString.startsWith (glue a b) "[" = JsString.startsWith a "[".
Proof.
  intros Ha Hdot. unfold glue.
  destruct (JsString.endsWith a DELIMITER) eqn:E,
           (JsString.startsWith b "[") eqn:S; simpl; try (split; [assumption | reflexivity]).
  - apply endsWith_char_split in E.
    assert (Hd : dropLast a <> "").
    { intros Hd. rewrite Hd in E. simpl in E. congruence. }
    split; [exact Hd|].
    rewrite E at 2. now rewrite startsWith_char_app.
  - split.
    + intros H. apply append_eq_nil in H. tauto.
    + now apply startsWith_char_app.
Qed.

(** The adjustment at a junction only touches the operand next to it. *)
Lemma glue_app (g b c : t) : b <> "" -> glue (g ++ b) c = g ++ glue b c.
Proof.
  intros Hb. unfold glue, DELIMITER.
  rewrite endsWith_char_app by assumption.
  destruct (JsString.endsWith b "."), (JsString.startsWith c "["); simpl;
    try reflexivity.
  - now apply dropLast_app.
  - apply append_assoc.
Qed.

(** Associativity for arbitrary strings, the bare delimiter in the middle
    excepted. *)
Lemma concat_assoc_strings (a b c : t) :
  b <> "." -> concat (concat a b) c = concat a (concat b c).
Proof.
  intros Hdot.
  destruct (string_dec a "") as [->|Ha]; [reflexivity|].
  destruct (string_dec b "") as [->|Hb]; [now rewrite concat_empty_r|].
  destruct (string_dec c "") as [->|Hc]; [now rewrite !concat_empty_r|].
  rewrite (concat_glue (concat a b) c) by (auto using concat_nonempty).
  rewrite (concat_glue a (concat b c)) by (auto using concat_nonempty).
  rewrite (concat_glue a b), (concat_glue b c) by assumption.
  rewrite glue_app by assumption.
  destruct (glue_head b c Hb Hdot) as [Hg Hs].
  rewrite (glue_ext a (glue b c ++ c) b).
  - now rewrite !append_assoc.
  - now rewrite startsWith_char_app.
Qed.

Lemma createPart_size (part : Part) :
  createPart part = "" \/ 2 <= String.length (createPart part).
Proof.
  destruct part as [s|n]; simpl.
  - destruct (String.eqb_spec s "") as [->|Hs]; [now left|].
    right. destruct (allDigits s).
    + simpl. rewrite length_append. simpl. lia.
    + rewrite length_append. destruct s; [congruence|]. simpl. lia.
  - right. simpl. rewrite length_append. simpl. lia.
Qed.

Lemma concat_size (a b : t) :
  (a = "" \/ 2 <= String.length a) ->
  (b = "" \/ 2 <= String.length b) ->
  concat a b = "" \/ 2 <= String.length (concat a b).
Proof.
  intros Ha Hb.
  destruct (string_dec b "") as [->|Hb']; [now rewrite concat_empty_r|].
  destruct (string_dec a "") as [->|Ha']; [exact Hb|].
  right. rewrite concat_glue, length_append by assumption.
  destruct Hb; [contradiction | lia].
Qed.

Lemma fold_extend_size (parts : list Part) (acc : t) :
  (acc = "" \/ 2 <= String.length acc) ->
  fold_left extend parts acc = "" \/ 2 <= String.length (fold_left extend parts acc).
Proof.
  revert acc. induction parts as [|p parts IH]; intros acc Hacc; [exact Hacc|].
  simpl. apply IH. apply concat_size; [exact Hacc | apply createPart_size].
Qed.

(** No constructed path is the bare delimiter. *)
Lemma create_not_delimiter (parts : list Part) : create parts <> ".".
Proof.
  unfold create.
  destruct (fold_extend_size parts EMPTY (or_introl eq_refl)) as [H|H];
    intros E; rewrite E in H; [discriminate | simpl in H; lia].
Qed.

(** C8. [ObjectPath.concat] is associative over the paths built by
    [create], and the empty path is a left and right identity of
    [concat]. *)
Theorem concat_assoc_identity :
  (forall xs ys zs : list Part,
      concat (concat (create xs) (create ys)) (create zs)
      = concat (create xs) (concat (create ys) (create zs)))
  /\ (forall p : t, concat EMPTY p = p /\ concat p EMPTY = p).
Proof.
  split.
  - intros xs ys zs. apply concat_assoc_strings, create_not_delimiter.
  - intros p. split; [apply concat_empty_l | apply concat_empty_r].
Qed.

(** Outside the constructed paths associativity can fail: the bare
    delimiter disappears in front of an index. *)
Remark concat_not_assoc_on_raw_strings :
  concat (concat "a." ".") "[0]" <> concat "a." (concat "." "[0]").
Proof. vm_compute. discriminate. Qed.

(** C10. Extending a path by the empty string changes nothing, and
    [create] without parts, or with the empty string alone, is the empty
    path. *)
Theorem extend_empty_noop :
  (forall p : t, extend p (PStr "") = p)
  /\ create [] = EMPTY
  /\ create [PStr ""] = EMPTY.
Proof.
  split; [|split]; try reflexivity.
  intros p. unfold extend. simpl createPart. apply concat_empty_r.
Qed.

End ConcatFacts.

(** ** Prefix tests on object paths *)

Section StartsWithFacts.

Import ObjectPath.

(** [indexOf] finds a one-character string among the acceptable suffixes
    exactly when the character is the delimiter or an opening bracket. *)
Lemma acceptable_char (c : ascii) :
  negb (indexOf suffixEqb ACCEPTABLE_SUFFIXES (Some (String c "")) =? -1)%Z
  = ((c =? ".")%char || (c =? "[")%char).
Proof.
  unfold indexOf, ACCEPTABLE_SUFFIXES. cbn [indexOfFrom suffixEqb String.eqb].
  rewrite (Ascii.eqb_sym "." c), (Ascii.eqb_sym "[" c).
  destruct (c =? ".")%char; [reflexivity|].
  destruct (c =? "[")%char; reflexivity.
Qed.

(** The empty string, which is what [charAt] returns past the end, is not
    among the acceptable suffixes: [undefined] is not [''] . *)
Lemma end_not_acceptable :
  negb (indexOf suffixEqb ACCEPTABLE_SUFFIXES (Some "") =? -1)%Z = false.
Proof. reflexivity. Qed.

(** What [startsWith] computes for a prefix that ends on the delimiter. *)
Lemma startsWith_delimited (path prefixVal : t) :
  JsString.endsWith prefixVal DELIMITER = true ->
  startsWith path prefixVal = true <->
  exists c rest,
    path = Lodash.trimEnd prefixVal DELIMITER ++ String c rest
    /\ (c = "."%char \/ c = "["%char).
Proof.
  intros Hend. unfold startsWith. rewrite Hend.
  destruct (String.eqb_spec prefixVal EMPTY) as [->|_]; [discriminate|].
  set (trimmed := Lodash.trimEnd prefixVal DELIMITER).
  destruct (JsString.startsWith path trimmed) eqn:Hpre; simpl.
  - apply startsWith_split in Hpre. destruct Hpre as [rest ->].
    rewrite charAt_after. destruct rest as [|c rest].
    + rewrite end_not_acceptable. split; [discriminate|].
      intros (c & r & E & _). rewrite <- (append_nil_r trimmed) in E at 1.
      clear - E. induction trimmed; simpl in E; [discriminate | inversion E; auto].
    + rewrite acceptable_char, Bool.orb_true_iff, !Ascii.eqb_eq. split.
      * intros H. now exists c, rest.
      * intros (c' & r' & E & H). 
        assert (c' = c) as <-; [|exact H].
        clear - E. induction trimmed; simpl in E; inversion E; auto.
  - split; [discriminate|]. intros (c & r & -> & _).
    now rewrite startsWith_app in Hpre.
Qed.

(** C7. The empty prefix matches every path.  A prefix that ends on the
    delimiter matches a path only if the path is the trimmed prefix
    followed by nothing, by the delimiter or by an opening bracket; hence it
    never matches a path that continues the trimmed prefix with another
    character, as [fieldOther.x] does for the prefix [field.]. *)
Theorem startsWith_prefix_rules (path prefixVal : t) :
  startsWith path EMPTY = true
  /\ (JsString.endsWith prefixVal DELIMITER = true ->
      startsWith path prefixVal = true ->
      exists rest,
        path = Lodash.trimEnd prefixVal DELIMITER ++ rest
        /\ (rest = ""
            \/ JsString.startsWith rest DELIMITER = true
            \/ JsString.startsWith rest "[" = true))
  /\ (JsString.endsWith prefixVal DELIMITER = true ->
      forall (c : ascii) (rest : string),
        path = Lodash.trimEnd prefixVal DELIMITER ++ String c rest ->
        c <> "."%char -> c <> "["%char ->
        startsWith path prefixVal = false)
  /\ startsWith (create [PStr "fieldOther"; PStr "x"]) (create [PStr "field"]) = false.
Proof.
  split; [reflexivity|]. split; [|split]; [| |reflexivity].
  - intros Hend Hm. apply (startsWith_delimited path prefixVal Hend) in Hm.
    destruct Hm as (c & rest & E & Hc). exists (String c rest). split; [exact E|].
    right. unfold DELIMITER. rewrite !startsWith_char.
    destruct Hc as [->| ->]; [left | right]; reflexivity.
  - intros Hend c rest E Hdot Hbr.
    destruct (startsWith path prefixVal) eqn:Hm; [|reflexivity].
    apply (startsWith_delimited path prefixVal Hend) in Hm.
    destruct Hm as (c' & rest' & E' & Hc').
    assert (c' = c) as ->.
    { rewrite E in E'. clear - E'.
      induction (Lodash.trimEnd prefixVal DELIMITER); simpl in E'; inversion E'; auto. }
    destruct Hc'; contradiction.
Qed.

Lemma startsWith_prefix_rules_witness :
  exists rest,
    "field[0]" = Lodash.trimEnd "field." DELIMITER ++ rest
    /\ (rest = ""
        \/ JsString.startsWith rest DELIMITER = true
        \/ JsString.startsWith rest "[" = true).
Proof.
  apply (proj1 (proj2 (startsWith_prefix_rules "field[0]" "field."))); reflexivity.
Defined.

(** A path that stops right after the trimmed prefix is not matched:
    [charAt] yields the empty string there, not [undefined]. *)
Remark startsWith_rejects_end_of_string :
  startsWith "field" "field." = false
  /\ startsWith (create [PStr "field"; PNum 0]) (create [PStr "field"]) = true
  /\ startsWith (create [PStr "field"; PStr "x"]) (create [PStr "field"]) = true.
Proof. repeat split. Qed.

End StartsWithFacts.

(** ** The shape of constructed paths *)

Section CreateFacts.

Import ObjectPath.

Lemma fold_extend_concat (parts : list Part) (a acc : t) :
  (acc = "" \/ 2 <= String.length acc) ->
  fold_left extend parts (concat a acc) = concat a (fold_left extend parts acc).
Proof.
  revert acc. induction parts as [|p parts IH]; intros acc Hacc; [reflexivity|].
  simpl. unfold extend at 2 4.
  rewrite concat_assoc_strings.
  - apply IH. apply concat_size; [exact Hacc | apply createPart_size].
  - intros E. rewrite E in Hacc. destruct Hacc as [H|H]; [discriminate | simpl in H; lia].
Qed.

Lemma create_cons (p : Part) (parts : list Part) :
  create (p :: parts) = concat (createPart p) (create parts).
Proof.
  unfold create. simpl. unfold extend at 2. rewrite concat_empty_l.
  rewrite <- (concat_empty_r (createPart p)) at 1.
  apply fold_extend_concat. now left.
Qed.

Lemma create_app (xs ys : list Part) :
  create (xs ++ ys) = concat (create xs) (create ys).
Proof.
  induction xs as [|x xs IH]; [reflexivity|].
  simpl. rewrite !create_cons, IH.
  symmetry. apply concat_assoc_strings, create_not_delimiter.
Qed.

Lemma allDigits_nonempty (s : string) : allDigits s = true -> s <> "".
Proof. unfold allDigits. now destruct s. Qed.

Lemma safeName_nonempty (s : string) : safeName s = true -> s <> "".
Proof. unfold safeName. now destruct s. Qed.

Lemma safeName_head (s : string) :
  safeName s = true ->
  exists c r, s = String c r /\ Lodash.isPathPunct c = false
              /\ allChars notPunct r = true.
Proof.
  unfold safeName, allChars. destruct s as [|c r]; [discriminate|].
  simpl. intros H. apply Bool.andb_true_iff in H. destruct H as [Hc Hr].
  exists c, r. repeat split; [now apply Bool.negb_true_iff | exact Hr].
Qed.

Lemma createPart_text (p : Part) :
  safePart p = true -> createPart p = headText p ++ leadText p.
Proof.
  unfold headText, leadText. destruct p as [s|n]; simpl; intros Hs.
  - apply safeName_nonempty in Hs. apply String.eqb_neq in Hs. rewrite Hs.
    destruct (allDigits s); simpl; [|reflexivity].
    now rewrite append_nil_r.
  - now rewrite append_nil_r.
Qed.

Lemma headText_nonempty (p : Part) : safePart p = true -> headText p <> "".
Proof.
  unfold headText. destruct (isIndexPart p) eqn:E; [discriminate|].
  destruct p as [s|n]; simpl; [apply safeName_nonempty | discriminate].
Qed.

(** A path text opens with a bracket exactly when its first part is an
    index. *)
Lemma headText_bracket (p : Part) (rest : string) :
  safePart p = true ->
  JsString.startsWith (headText p ++ rest) "[" = isIndexPart p.
Proof.
  intros Hs. rewrite startsWith_char_app by now apply headText_nonempty.
  unfold headText. destruct (isIndexPart p) eqn:E; [now rewrite startsWith_char|].
  destruct p as [s|n]; [|discriminate]. simpl in *.
  destruct (safeName_head s Hs) as (c & r & -> & Hc & _).
  rewrite startsWith_char. unfold Lodash.isPathPunct in Hc.
  apply Bool.orb_false_iff in Hc. destruct Hc as [Hc _].
  apply Bool.orb_false_iff in Hc. destruct Hc as [_ Hc].
  now rewrite Ascii.eqb_sym.
Qed.

Lemma endsWith_bracketed (k : string) :
  JsString.endsWith ("[" ++ k ++ "]") "." = false.
Proof.
  rewrite <- append_assoc. now rewrite endsWith_char_app by discriminate.
Qed.

Lemma createPart_delimiter (p : Part) :
  safePart p = true ->
  JsString.endsWith (createPart p) DELIMITER = negb (isIndexPart p).
Proof.
  intros Hs. unfold DELIMITER. destruct p as [s|n]; simpl.
  - apply safeName_nonempty in Hs. apply String.eqb_neq in Hs. rewrite Hs.
    destruct (allDigits s); simpl.
    + apply endsWith_bracketed.
    + apply endsWith_char_snoc.
  - apply endsWith_bracketed.
Qed.

Lemma pathText_cons_nonempty (p : Part) (ps : list Part) :
  safePart p = true -> pathText (p :: ps) <> "".
Proof.
  intros Hs E. simpl in E. apply append_eq_nil in E.
  now apply (headText_nonempty p Hs).
Qed.

(** The path [create] builds from well-behaved parts, written out. *)
Lemma create_pathText (parts : list Part) :
  forallb safePart parts = true -> create parts = pathText parts.
Proof.
  induction parts as [|p ps IH]; [reflexivity|].
  simpl forallb. intros H. apply Bool.andb_true_iff in H. destruct H as [Hp Hps].
  rewrite create_cons, (IH Hps). clear IH.
  destruct ps as [|q ps].
  - simpl. rewrite concat_empty_r. now apply createPart_text.
  - simpl forallb in Hps. apply Bool.andb_true_iff in Hps. destruct Hps as [Hq Hps].
    assert (Hne : createPart p <> "").
    { rewrite createPart_text by assumption. intros E. apply append_eq_nil in E.
      now apply (headText_nonempty p Hp). }
    rewrite concat_glue by (auto using pathText_cons_nonempty).
    assert (Hb : JsString.startsWith (pathText (q :: ps)) "[" = isIndexPart q)
      by exact (headText_bracket q _ Hq).
    unfold glue. rewrite (createPart_delimiter p Hp), Hb.
    change (pathText (p :: q :: ps)) with (headText p ++ leadText q ++ pathText (q :: ps)).
    rewrite (createPart_text p Hp). unfold leadText at 1 2 3 4.
    destruct (isIndexPart p), (isIndexPart q); simpl negb; simpl andb; cbv iota.
    + unfold leadText. now rewrite append_nil_r.
    + unfold leadText, DELIMITER. now rewrite !append_assoc.
    + unfold leadText. now rewrite dropLast_snoc.
    + unfold leadText. now rewrite append_assoc.
Qed.

End CreateFacts.

(** ** Reading a path back with [toArray] *)

Section ToArrayFacts.

Import ObjectPath.

Lemma allChars_app (p : ascii -> bool) (a b : string) :
  allChars p (a ++ b) = allChars p a && allChars p b.
Proof.
  unfold allChars. induction a as [|c a IH]; simpl; [reflexivity|].
  now rewrite IH, Bool.andb_assoc.
Qed.

Lemma allChars_impl (p q : ascii -> bool) (s : string) :
  (forall c, p c = true -> q c = true) -> allChars p s = true -> allChars q s = true.
Proof.
  intros Hpq. unfold allChars. induction s as [|c s IH]; simpl; [reflexivity|].
  intros H. apply Bool.andb_true_iff in H. destruct H as [Hc Hs].
  now rewrite (Hpq c Hc), IH.
Qed.

(** [span] stops exactly where the run of accepted characters ends. *)
Lemma span_stop (p : ascii -> bool) (s X : string) :
  allChars p s = true -> boundary p X = true -> Lodash.span p (s ++ X) = (s, X).
Proof.
  unfold allChars. intros Hs HX. induction s as [|c s IH]; simpl in *.
  - destruct X as [|x X]; [reflexivity|]. simpl in *.
    apply Bool.negb_true_iff in HX. now rewrite HX.
  - apply Bool.andb_true_iff in Hs. destruct Hs as [Hc Hs].
    now rewrite Hc, (IH Hs).
Qed.

Lemma trimEnd_cons (c : ascii) (r chars : string) :
  Lodash.trimEnd (String c r) chars
  = match Lodash.trimEnd r chars with
    | "" => if Lodash.inChars c chars then "" else String c ""
    | r' => String c r'
    end.
Proof. reflexivity. Qed.

Lemma trimEnd_keep (c : ascii) (r chars : string) :
  Lodash.inChars c chars = false ->
  Lodash.trimEnd (String c r) chars = String c (Lodash.trimEnd r chars).
Proof. intros Hc. simpl. rewrite Hc. now destruct (Lodash.trimEnd r chars). Qed.

Lemma trimEnd_dotfree (x y : string) :
  allChars notDot x = true ->
  Lodash.trimEnd (x ++ y) DELIMITER = x ++ Lodash.trimEnd y DELIMITER.
Proof.
  unfold allChars. induction x as [|c x IH]; [reflexivity|].
  simpl list_ascii_of_string. simpl forallb. intros H.
  apply Bool.andb_true_iff in H. destruct H as [Hc Hx].
  change (String c x ++ y) with (String c (x ++ y)).
  rewrite trimEnd_keep by now apply Bool.negb_true_iff.
  now rewrite (IH Hx).
Qed.

Lemma trimEnd_idempotent (s chars : string) :
  Lodash.trimEnd (Lodash.trimEnd s chars) chars = Lodash.trimEnd s chars.
Proof.
  induction s as [|c s IH]; [reflexivity|].
  simpl. destruct (Lodash.trimEnd s chars) as [|d r] eqn:E.
  - destruct (Lodash.inChars c chars) eqn:Hc; [reflexivity|].
    simpl. now rewrite Hc.
  - now rewrite trimEnd_cons, IH.
Qed.

Lemma digit_plain (c : ascii) :
  Lodash.isDigit c = true ->
  notPunct c = true /\ notDot c = true /\ (c =? "-")%char = false.
Proof.
  destruct c as [[] [] [] [] [] [] [] []]; intros H; try discriminate H;
    repeat split.
Qed.

Lemma notPunct_notDot (c : ascii) : notPunct c = true -> notDot c = true.
Proof.
  unfold notPunct, notDot, Lodash.isPathPunct, Lodash.inChars. simpl.
  destruct (c =? ".")%char; [discriminate | reflexivity].
Qed.

Lemma allDigits_chars (s : string) :
  allDigits s = true -> s <> "" /\ allChars Lodash.isDigit s = true.
Proof.
  unfold allDigits, allChars. intros H. apply Bool.andb_true_iff in H.
  destruct H as [Hn Hd]. split; [|exact Hd].
  apply Bool.negb_true_iff in Hn. now apply String.eqb_neq.
Qed.

Lemma string_of_uint_digits (d : Decimal.uint) :
  allChars Lodash.isDigit (NilEmpty.string_of_uint d) = true.
Proof. unfold allChars. induction d; simpl; auto. Qed.

Lemma nilzero_digits (d : Decimal.uint) : allDigits (NilZero.string_of_uint d) = true.
Proof.
  unfold allDigits. apply Bool.andb_true_iff. split.
  - destruct d; reflexivity.
  - destruct d; try reflexivity; apply (string_of_uint_digits _).
Qed.

Lemma allDigits_numeric (k : string) : allDigits k = true -> numericKey k = true.
Proof.
  intros H. destruct (allDigits_chars k H) as [Hn Hd].
  destruct k as [|c k]; [congruence|]. unfold numericKey.
  unfold allChars in Hd. simpl in Hd. apply Bool.andb_true_iff in Hd.
  destruct Hd as [Hc _]. destruct (digit_plain c Hc) as (_ & _ & ->). exact H.
Qed.

Lemma numberToString_numeric (n : Z) : numericKey (numberToString n) = true.
Proof.
  unfold numberToString. destruct n as [|q|q]; simpl Z.to_int; simpl NilZero.string_of_int.
  - reflexivity.
  - apply allDigits_numeric, nilzero_digits.
  - unfold numericKey. rewrite Ascii.eqb_refl. apply nilzero_digits.
Qed.

Lemma partKey_numeric (p : Part) :
  isIndexPart p = true -> numericKey (partKey p) = true.
Proof.
  destruct p as [s|n]; simpl.
  - apply allDigits_numeric.
  - intros _. apply numberToString_numeric.
Qed.

Lemma numericKey_split (k : string) :
  numericKey k = true ->
  (exists d, k = String "-" d /\ allDigits d = true) \/ allDigits k = true.
Proof.
  destruct k as [|c d]; [discriminate|]. unfold numericKey.
  destruct (Ascii.eqb_spec c "-") as [->|_]; intros H; [left; now exists d | now right].
Qed.

Lemma numericKey_dotfree (k : string) :
  numericKey k = true -> allChars notDot k = true.
Proof.
  intros H. destruct (numericKey_split k H) as [(d & -> & Hd)|Hd];
    apply allDigits_chars in Hd; destruct Hd as [_ Hd].
  - change (String "-" d) with ("-" ++ d). rewrite allChars_app.
    apply Bool.andb_true_iff. split; [reflexivity|].
    revert Hd. apply allChars_impl. intros c Hc. now apply digit_plain.
  - revert Hd. apply allChars_impl. intros c Hc. now apply digit_plain.
Qed.

Lemma headText_dotfree (p : Part) :
  safePart p = true -> allChars notDot (headText p) = true.
Proof.
  intros Hs. unfold headText. destruct (isIndexPart p) eqn:E.
  - rewrite !allChars_app, (numericKey_dotfree _ (partKey_numeric p E)). reflexivity.
  - destruct p as [s|n]; [|discriminate]. simpl in *.
    unfold safeName in Hs. apply Bool.andb_true_iff in Hs. destruct Hs as [_ Hs].
    revert Hs. apply allChars_impl, notPunct_notDot.
Qed.

Lemma shownText_cons_nonempty (p : Part) (ps : list Part) :
  safePart p = true -> shownText (p :: ps) <> "".
Proof.
  intros Hs E. simpl in E. apply append_eq_nil in E.
  now apply (headText_nonempty p Hs).
Qed.

(** [toString] removes the trailing delimiter of a well-behaved path and
    nothing else. *)
Lemma toString_pathText (parts : list Part) :
  forallb safePart parts = true -> toString (pathText parts) = shownText parts.
Proof.
  unfold toString. induction parts as [|p ps IH]; [reflexivity|].
  simpl forallb. intros H. apply Bool.andb_true_iff in H. destruct H as [Hp Hps].
  specialize (IH Hps).
  change (pathText (p :: ps))
    with (headText p ++ match ps with [] => leadText p | q :: _ => leadText q ++ pathText ps end).
  change (shownText (p :: ps))
    with (headText p ++ match ps with [] => "" | q :: _ => leadText q ++ shownText ps end).
  rewrite trimEnd_dotfree by now apply headText_dotfree.
  f_equal. destruct ps as [|q ps].
  - unfold leadText. now destruct (isIndexPart p).
  - simpl forallb in Hps. apply Bool.andb_true_iff in Hps. destruct Hps as [Hq _].
    unfold leadText. destruct (isIndexPart q); [exact IH|].
    change ("." ++ pathText (q :: ps)) with (String "." (pathText (q :: ps))).
    rewrite trimEnd_cons, IH.
    destruct (shownText (q :: ps)) eqn:E; [|reflexivity].
    now apply shownText_cons_nonempty in E.
Qed.

Lemma matchNumber_key (k X : string) :
  numericKey k = true -> Lodash.matchNumber (k ++ String "]" X) = Some (k, X).
Proof.
  intros H. unfold Lodash.matchNumber.
  destruct (numericKey_split k H) as [(d & -> & Hd)|Hd];
    destruct (allDigits_chars _ Hd) as [Hn Hc].
  - change (String "-" d ++ String "]" X) with (String "-" (d ++ String "]" X)).
    cbv iota beta. rewrite Ascii.eqb_refl.
    rewrite (span_stop Lodash.isDigit d (String "]" X) Hc eq_refl).
    apply String.eqb_neq in Hn. now rewrite Hn.
  - destruct k as [|c r]; [congruence|].
    assert (Hm : (c =? "-")%char = false).
    { unfold allChars in Hc. simpl in Hc. apply Bool.andb_true_iff in Hc.
      now apply digit_plain. }
    change (String c r ++ String "]" X) with (String c (r ++ String "]" X)).
    cbv iota beta. rewrite Hm.
    change (String c (r ++ String "]" X)) with (String c r ++ String "]" X).
    rewrite (span_stop Lodash.isDigit (String c r) (String "]" X) Hc eq_refl).
    reflexivity.
Qed.

Lemma scanKeys_cons (f : nat) (c : ascii) (s' : string) :
  Lodash.scanKeys (S f) (String c s')
  = if negb (Lodash.isPathPunct c) then
      let (key, rest) := Lodash.span notPunct (String c s') in
      key :: Lodash.scanKeys f rest
    else
      match (if (c =? "[")%char then Lodash.matchBracket s' else None) with
      | Some (key, rest) => key :: Lodash.scanKeys f rest
      | None =>
          if Lodash.emptyKeyAhead (String c s') then "" :: Lodash.scanKeys f s'
          else Lodash.scanKeys f s'
      end.
Proof. reflexivity. Qed.

Lemma scanKeys_nil (f : nat) : Lodash.scanKeys f "" = [].
Proof. now destruct f. Qed.

(** the first alternative reads a whole field name *)
Lemma scan_name (s X : string) (f : nat) :
  safeName s = true -> boundary notPunct X = true ->
  Lodash.scanKeys (S f) (s ++ X) = s :: Lodash.scanKeys f X.
Proof.
  intros Hs HX. destruct (safeName_head s Hs) as (c & r & -> & Hc & Hr).
  change (String c r ++ X) with (String c (r ++ X)).
  rewrite scanKeys_cons, Hc. cbv iota beta. simpl negb. cbv iota.
  change (String c (r ++ X)) with (String c r ++ X).
  rewrite span_stop; [reflexivity | | exact HX].
  unfold allChars in *. simpl. unfold notPunct at 1. now rewrite Hc.
Qed.

(** the second alternative reads a bracketed index *)
Lemma scan_index (k X : string) (f : nat) :
  numericKey k = true ->
  Lodash.scanKeys (S f) ("[" ++ k ++ "]" ++ X) = k :: Lodash.scanKeys f X.
Proof.
  intros Hk. change ("[" ++ k ++ "]" ++ X) with (String "[" (k ++ String "]" X)).
  rewrite scanKeys_cons. simpl negb. cbv iota. rewrite Ascii.eqb_refl.
  unfold Lodash.matchBracket. now rewrite (matchNumber_key k X Hk).
Qed.

(** a delimiter in front of a field name yields no key *)
Lemma scan_delimiter (c : ascii) (Y : string) (f : nat) :
  Lodash.isPathPunct c = false ->
  Lodash.scanKeys (S f) (String "." (String c Y)) = Lodash.scanKeys f (String c Y).
Proof.
  intros Hc. rewrite scanKeys_cons. simpl negb. cbv iota.
  change ("." =? "[")%char with false. cbv iota.
  unfold Lodash.emptyKeyAhead, Lodash.dotOrBrackets.
  rewrite Ascii.eqb_refl.
  unfold Lodash.isPathPunct in Hc.
  apply Bool.orb_false_iff in Hc. destruct Hc as [Hc _].
  apply Bool.orb_false_iff in Hc. destruct Hc as [Hd Hb].
  now rewrite Hd, Hb.
Qed.

Lemma headText_scan (p : Part) (X : string) (f : nat) :
  safePart p = true -> boundary notPunct X = true ->
  Lodash.scanKeys (S f) (headText p ++ X) = partKey p :: Lodash.scanKeys f X.
Proof.
  intros Hp HX. unfold headText. destruct (isIndexPart p) eqn:E.
  - rewrite !append_assoc. apply scan_index. now apply partKey_numeric.
  - destruct p as [s|n]; [|discriminate]. now apply scan_name.
Qed.

(** the displayed form of a path opens with a bracket or with a character
    of a field name *)
Lemma shownText_head (p : Part) (ps : list Part) :
  safePart p = true ->
  exists c r, shownText (p :: ps) = String c r
              /\ (if isIndexPart p then c = "["%char else Lodash.isPathPunct c = false).
Proof.
  intros Hp. simpl. unfold headText. destruct (isIndexPart p) eqn:E.
  - eexists _, _. split; reflexivity.
  - destruct p as [s|n]; [|discriminate]. simpl in *.
    destruct (safeName_head s Hp) as (c & r & -> & Hc & _).
    eexists _, _. split; [reflexivity | exact Hc].
Qed.

(** The match loop reads the displayed form of a well-behaved path back
    into the keys of its parts. *)
Lemma scan_shownText (parts : list Part) :
  forallb safePart parts = true ->
  forall f, String.length (shownText parts) <= f ->
            Lodash.scanKeys f (shownText parts) = map partKey parts.
Proof.
  induction parts as [|p ps IH]; intros Hall f Hf; [apply scanKeys_nil|].
  simpl forallb in Hall. apply Bool.andb_true_iff in Hall. destruct Hall as [Hp Hps].
  specialize (IH Hps).
  change (shownText (p :: ps))
    with (headText p ++ match ps with [] => "" | q :: _ => leadText q ++ shownText ps end)
    in *.
  rewrite length_append in Hf.
  assert (Hh : 1 <= String.length (headText p)).
  { pose proof (headText_nonempty p Hp). destruct (headText p); [congruence | simpl; lia]. }
  destruct f as [|f]; [lia|].
  destruct ps as [|q ps].
  - rewrite headText_scan by (assumption || reflexivity).
    now rewrite scanKeys_nil.
  - simpl forallb in Hps. apply Bool.andb_true_iff in Hps. destruct Hps as [Hq _].
    destruct (shownText_head q ps Hq) as (c & r & Hshape & Hc).
    unfold leadText in *. destruct (isIndexPart q) eqn:Eq.
    + rewrite headText_scan; [| assumption | rewrite Hshape, Hc; reflexivity].
      change ("" ++ shownText (q :: ps)) with (shownText (q :: ps)) in *.
      simpl map. f_equal. apply IH. lia.
    + rewrite headText_scan by (assumption || reflexivity).
      simpl map. f_equal.
      rewrite length_append in Hf. change (String.length ".") with 1 in Hf.
      destruct f as [|f]; [lia|].
      change ("." ++ shownText (q :: ps)) with (String "." (shownText (q :: ps))).
      rewrite Hshape, (scan_delimiter c r f Hc), <- Hshape.
      apply IH. lia.
Qed.

End ToArrayFacts.

Section ToArrayTheorems.

Import ObjectPath.

Lemma readable_safe (parts : list Part) :
  forallb readablePart parts = true -> forallb safePart parts = true.
Proof.
  rewrite !forallb_forall. intros H p Hp. specialize (H p Hp).
  unfold readablePart in H. now apply Bool.andb_true_iff in H.
Qed.

(** C9 (as amended). For parts whose field names are non-empty and free of
    the delimiter and of brackets and whose indices are safe integers,
    [toArray(toString(create(...parts)))] lists the parts in order, each as
    a string: a field name as it is, an index as its decimal digits. *)
Theorem toArray_toString_create (parts : list Part) :
  forallb readablePart parts = true ->
  toArray (toString (create parts)) = map (fun p => PStr (partKey p)) parts.
Proof.
  intros Hread. pose proof (readable_safe parts Hread) as Hall. unfold toArray.
  rewrite (create_pathText parts Hall).
  unfold toString at 1. fold (toString (pathText parts)).
  unfold toString. rewrite trimEnd_idempotent. fold (toString (pathText parts)).
  rewrite (toString_pathText parts Hall).
  unfold Lodash.toPath, Lodash.stringToPath.
  rewrite (scan_shownText parts Hall _ (le_n _)).
  destruct parts as [|p ps]; [reflexivity|].
  simpl forallb in Hall. apply Bool.andb_true_iff in Hall. destruct Hall as [Hp _].
  destruct (shownText_head p ps Hp) as (c & r & -> & Hc).
  assert (Hd : (c =? ".")%char = false).
  { destruct (isIndexPart p).
    - now subst c.
    - unfold Lodash.isPathPunct in Hc.
      apply Bool.orb_false_iff in Hc. destruct Hc as [Hc _].
      apply Bool.orb_false_iff in Hc. tauto. }
  rewrite Hd. exact (map_map partKey PStr (p :: ps)).
Qed.

Lemma toArray_toString_create_witness :
  toArray (toString (create [PStr "criteria"; PNum 1; PStr "src_port_max"]))
  = [PStr "criteria"; PStr "1"; PStr "src_port_max"].
Proof.
  apply (toArray_toString_create [PStr "criteria"; PNum 1; PStr "src_port_max"]).
  reflexivity.
Defined.

(** C9 (as stated) fails: an index comes back as a string, and a field name
    that contains the delimiter comes back in pieces. *)
Lemma toArray_roundtrip_fails :
  toArray (toString (create [PStr "a"; PNum 0])) <> [PStr "a"; PNum 0]
  /\ toArray (toString (create [PStr "a.b"])) <> [PStr "a.b"].
Proof. split; vm_compute; discriminate. Qed.

(** The same paths, evaluated. *)
Remark toArray_examples :
  toArray (toString (create [PStr "a"; PNum 0])) = [PStr "a"; PStr "0"]
  /\ toArray (toString (create [PStr "a.b"])) = [PStr "a"; PStr "b"]
  /\ toArray (toString (create [PStr "a"; PStr ""; PStr "b"])) = [PStr "a"; PStr "b"]
  /\ toArray (create [PStr "a"; PNum 0; PStr "b"]) = [PStr "a"; PStr "0"; PStr "b"].
Proof. repeat split. Qed.

(** An index beyond the safe integers is printed in exponent notation,
    and the path with such an index is not read back as one key. *)
Remark toArray_exponent_notation :
  toArray "a[1.2345e+25]" = [PStr "a"; PStr "1"; PStr "2345e+25"]
  /\ toArray "[1e+21]" = [PStr "1e+21"].
Proof. split; reflexivity. Qed.

End ToArrayTheorems.

(** ** The most severe diagnostic *)

Section MaxSeverityFacts.

Context {A : Type} (key : A -> Z).

(** The head of the sorted list is an element with the least key. *)
Lemma sortBy_head (xs : list A) :
  match Lodash.sortBy xs key with
  | [] => xs = []
  | m :: _ => In m xs /\ Forall (fun x => (key m <= key x)%Z) xs
  end.
Proof.
  induction xs as [|a xs IH]; [reflexivity|].
  unfold Lodash.sortBy in *. simpl fold_right.
  destruct (fold_right (Lodash.insertBy key) [] xs) as [|m r].
  - subst xs. simpl. split; [now left|]. constructor; [lia | constructor].
  - destruct IH as [Hin Hmin]. simpl.
    destruct (Z.leb_spec (key a) (key m)) as [Hle|Hgt].
    + split; [now left|]. constructor; [lia|].
      eapply Forall_impl; [|exact Hmin]. simpl. intros x Hx. lia.
    + split; [now right|]. constructor; [lia | exact Hmin].
Qed.

End MaxSeverityFacts.

(** C5 (as amended). [maxSeverity] of an absent or empty list is null; of
    a non-empty list it is the severity of a diagnostic of the list whose
    ordinal is the lowest, so the severity [Error] for a list of one error
    and one warning. *)
Theorem maxSeverity_least_ordinal :
  maxSeverity None = None
  /\ maxSeverity (Some []) = None
  /\ (forall (d : Diagnostic.t) (ds : list Diagnostic.t),
        exists m,
          maxSeverity (Some (d :: ds)) = Some (Diagnostic.severity m)
          /\ In m (d :: ds)
          /\ Forall (fun x => (Severity.ordinal (Diagnostic.severity m)
                               <= Severity.ordinal (Diagnostic.severity x))%Z)
               (d :: ds))
  /\ maxSeverity (Some [warningEntry; errorEntry]) = Some Error
  /\ maxSeverity (Some [errorEntry; warningEntry]) = Some Error.
Proof.
  split; [reflexivity|]. split; [reflexivity|]. split; [|split; reflexivity].
  intros d ds. unfold maxSeverity. simpl Nat.eqb. cbv iota.
  pose proof (sortBy_head (fun x => Severity.ordinal (Diagnostic.severity x)) (d :: ds)) as H.
  destruct (Lodash.sortBy (d :: ds) _) as [|m r]; [discriminate|].
  exists m. destruct H as [Hin Hmin]. auto.
Qed.

(** C5 (as stated) fails: what [maxSeverity] returns for one warning and
    one error is the member [Error] of the enumeration, not the error entry
    of the list. *)
Lemma maxSeverity_returns_no_entry :
  maxSeverityValue (Some [warningEntry; errorEntry]) = severityValue Error
  /\ maxSeverityValue (Some [warningEntry; errorEntry]) <> diagnosticValue errorEntry.
Proof. split; [reflexivity | vm_compute; discriminate]. Qed.

(** ** Entities *)

Section EntityFacts.

Import Entity.

Lemma latestValue_truthy_draft (e : t) :
  Js.truthy (draft e) = true -> latestValue e = draft e.
Proof. unfold latestValue, Js.or. now intros ->. Qed.

Lemma latestValue_null_draft (e : t) :
  draft e = JNull -> latestValue e = saved e.
Proof. unfold latestValue, Js.or. now intros ->. Qed.

Lemma latestValue_createUnsaved_truthy (v : JsVal) :
  Js.truthy v = true -> latestValue (createUnsaved v) = v.
Proof. intros H. now apply latestValue_truthy_draft. Qed.

(** C1. [latestValue] is [draft || saved]: it gives the draft when the
    draft is truthy and the saved value when the draft is null, but a draft
    that is not null and falsy ([0], [''], [false]) is passed over for the
    saved value, so [latestValue(createUnsaved(0))] is [null], not [0]. *)
Theorem latestValue_passes_over_falsy_draft :
  latestValue (createUnsaved (JNum 0)) = JNull
  /\ latestValue (createUnsaved (JStr "")) = JNull
  /\ latestValue (createUnsaved (JBool false)) = JNull
  /\ latestValue (withDraft (createSaved (JNum 5)) (JNum 0)) = JNum 5
  /\ latestValue (createUnsaved (objA 1)) = objA 1.
Proof. repeat split. Qed.

End EntityFacts.

(** ** The hook *)

Section UseEntityFacts.

Import UseEntity.

Lemma render_live (v : Validator) (h : Hook) : isUnmounted (render v h) = isUnmounted h.
Proof. reflexivity. Qed.

Lemma render_synced (v : Validator) (h : Hook) : liveEntity (render v h) = state (render v h).
Proof. reflexivity. Qed.

Lemma render_same_validator (h : Hook) :
  state (render (liveValidator h) h) = state h.
Proof. unfold render. now rewrite Nat.eqb_refl. Qed.

(** C2. When the promise handed to [save] resolves while the hook is
    mounted, the new state has the result as saved value if the result is
    neither null nor undefined, and the value [latestValue] gave when
    [save] was called otherwise; the draft is null, [isSaving] is false and
    the diagnostics are those of the current validator on the new saved
    value.  With draft [{a: 1}], saved [{a: 0}] and a promise that resolves
    to undefined, the state ends as draft null, saved [{a: 1}], not
    saving. *)
Theorem save_resolved_while_mounted
  (atCall atSettle : Hook) (fromPromise : JsVal) :
  isUnmounted atSettle = false ->
  let valueAtSaveTime := fst (saveBegin atCall) in
  let out := saveSettle valueAtSaveTime (Resolved fromPromise) atSettle in
  let e := state (fst out) in
  valueAtSaveTime = Entity.latestValue (liveEntity atCall)
  /\ Entity.isSaving (state (snd (saveBegin atCall))) = Some true
  /\ Entity.saved e = (if isNonVoid fromPromise then fromPromise else valueAtSaveTime)
  /\ Entity.draft e = JNull
  /\ Entity.isSaving e = Some false
  /\ Entity.diagnostics e = run (liveValidator atSettle) (Entity.saved e)
  /\ snd out = Fulfilled
  /\ (forall rendered : bool,
        save (Resolved JUndefined) rendered editedHook
        = (setInner
             {| Entity.draft := JNull; Entity.saved := objA 1;
                Entity.diagnostics := []; Entity.isSaving := Some false;
                Entity.isDeleting := None |}
             (if rendered
              then render noValidations (snd (saveBegin editedHook))
              else snd (saveBegin editedHook)),
           Fulfilled)).
Proof.
  intros Hlive. simpl. unfold saveSettle. rewrite Hlive. simpl.
  repeat split. now intros [].
Qed.

Lemma save_resolved_while_mounted_witness :
  Entity.saved
    (state (fst (saveSettle (fst (saveBegin editedHook)) (Resolved JNull)
                   (snd (saveBegin editedHook)))))
  = objA 1.
Proof.
  apply (save_resolved_while_mounted editedHook (snd (saveBegin editedHook)) JNull).
  reflexivity.
Defined.




(** Without a render since the last call the rejection branch still
    publishes the entity of the last render: an update made meanwhile is
    overwritten. *)
Remark rejected_save_overwrites_pending_update :
  let pending := update (objA 5) (render noValidations (snd (saveBegin editedHook))) in
  isUnmounted pending = false
  /\ Entity.draft (state pending) = objA 5
  /\ Entity.draft (state (fst (saveSettle (objA 1) (Rejected (JStr "err")) pending)))
     = objA 1.
Proof. repeat split. Qed.

(** C4 (as amended). Once the hook is unmounted, the settlement of the
    promise handed to [save] leaves every cell of the hook as it is; a
    resolution fulfils the promise returned by [save], and a rejection
    with [e] still rejects it with [e]. *)
Theorem save_settled_after_unmount
  (atSettle : Hook) (valueAtSaveTime : JsVal) (outcome : Settlement) :
  isUnmounted atSettle = true ->
  fst (saveSettle valueAtSaveTime outcome atSettle) = atSettle
  /\ snd (saveSettle valueAtSaveTime outcome atSettle)
     = match outcome with
       | Resolved _ => Fulfilled
       | Rejected e => RejectedWith e
       end.
Proof.
  intros Hdead. unfold saveSettle. rewrite Hdead.
  destruct outcome; split; reflexivity.
Qed.

Lemma save_settled_after_unmount_witness :
  fst (saveSettle (objA 1) (Rejected (JStr "err")) (unmount (snd (saveBegin editedHook))))
  = unmount (snd (saveBegin editedHook))
  /\ snd (saveSettle (objA 1) (Rejected (JStr "err")) (unmount (snd (saveBegin editedHook))))
     = RejectedWith (JStr "err").
Proof.
  apply (save_settled_after_unmount
           (unmount (snd (saveBegin editedHook))) (objA 1) (Rejected (JStr "err"))).
  reflexivity.
Defined.

(** C4 (as stated) fails: after the unmount a rejection is not swallowed,
    the promise returned by [save] rejects. *)
Lemma save_rejection_after_unmount_not_swallowed :
  snd (saveSettle (objA 1) (Rejected (JStr "err")) (unmount (snd (saveBegin editedHook))))
  <> Fulfilled.
Proof. vm_compute. discriminate. Qed.

(** *** The mode invariant *)

Lemma truthyModed_wellModed (e : Entity.t) :
  truthyModed e = true -> Entity.wellModed e = true.
Proof.
  unfold truthyModed, Entity.wellModed, Entity.bothNull.
  destruct (Js.isNull (Entity.saved e)), (Js.isNull (Entity.draft e));
    simpl; intros H; try reflexivity.
  now rewrite !Bool.andb_false_r in H.
Qed.

Lemma truthy_nullOrTruthy (v : JsVal) : Js.truthy v = true -> nullOrTruthy v = true.
Proof. unfold nullOrTruthy. intros ->. apply Bool.orb_true_r. Qed.

Lemma truthy_not_null (v : JsVal) : Js.truthy v = true -> Js.isNull v = false.
Proof. now destruct v. Qed.

Lemma truthyModed_intro (d s : JsVal) (ds : list Diagnostic.t) (sv dl : option bool) :
  nullOrTruthy d = true -> nullOrTruthy s = true ->
  Js.isNull d && Js.isNull s = false ->
  truthyModed {| Entity.draft := d; Entity.saved := s; Entity.diagnostics := ds;
                 Entity.isSaving := sv; Entity.isDeleting := dl |} = true.
Proof.
  unfold truthyModed, Entity.bothNull. simpl. now intros -> -> ->.
Qed.

Lemma truthyModed_parts (e : Entity.t) :
  truthyModed e = true ->
  nullOrTruthy (Entity.draft e) = true /\ nullOrTruthy (Entity.saved e) = true
  /\ Js.isNull (Entity.draft e) && Js.isNull (Entity.saved e) = false.
Proof.
  unfold truthyModed, Entity.bothNull. intros H.
  apply Bool.andb_true_iff in H. destruct H as [H Hb].
  apply Bool.andb_true_iff in H. destruct H as [Hd Hs].
  apply Bool.negb_true_iff in Hb. auto.
Qed.

(** On an entity whose values are never falsy, [latestValue] is truthy. *)
Lemma latestValue_truthyModed (e : Entity.t) :
  truthyModed e = true -> Js.truthy (Entity.latestValue e) = true.
Proof.
  intros H. destruct (truthyModed_parts e H) as (Hd & Hs & Hb).
  unfold Entity.latestValue, Js.or, nullOrTruthy in *.
  destruct (Js.truthy (Entity.draft e)) eqn:Td; [exact Td|].
  destruct (Js.truthy (Entity.saved e)) eqn:Ts; [reflexivity|].
  rewrite Bool.orb_false_r in Hd, Hs. rewrite Hd, Hs in Hb. discriminate.
Qed.

Lemma render_truthyModed (v : Validator) (h : Hook) :
  truthyModed (state h) = true -> truthyModed (state (render v h)) = true.
Proof.
  unfold render. simpl. destruct (negb (vid v =? vid (liveValidator h))%nat); auto.
Qed.

(** One call with truthy values, and the render after it, keep the
    invariant. *)
Lemma step_truthyModed (c : Call) (h : Hook) :
  callTruthy c = true ->
  liveEntity h = state h ->
  truthyModed (state h) = true ->
  liveEntity (step c h) = state (step c h) /\ truthyModed (state (step c h)) = true.
Proof.
  intros Hc Hsync Hinv. split; [reflexivity|].
  unfold step. apply render_truthyModed.
  destruct (truthyModed_parts _ Hinv) as (Hd & Hs & Hb).
  destruct c as [v|v|b|[r|e]]; simpl in Hc;
    unfold update, updateSaved, setSaving, save, saveBegin, saveSettle, setInner,
      Entity.withDiagnostics, Entity.withDraft, Entity.withSaved, Entity.withIsSaving;
    simpl; rewrite ?Hsync.
  - apply truthyModed_intro; auto using truthy_nullOrTruthy.
    now rewrite (truthy_not_null v Hc).
  - apply truthyModed_intro; auto using truthy_nullOrTruthy.
    rewrite (truthy_not_null v Hc). apply Bool.andb_false_r.
  - now apply truthyModed_intro.
  - rewrite Nat.eqb_refl. simpl. rewrite ?Hsync.
    destruct (isUnmounted h); simpl; rewrite ?Nat.eqb_refl; simpl;
      [now apply truthyModed_intro|].
    assert (Hv : Js.truthy (if isNonVoid r then r else Entity.latestValue (state h)) = true).
    { destruct (isNonVoid r); [exact Hc | now apply latestValue_truthyModed]. }
    apply truthyModed_intro; auto using truthy_nullOrTruthy.
    now rewrite (truthy_not_null _ Hv).
  - rewrite Nat.eqb_refl. simpl. rewrite ?Hsync.
    destruct (isUnmounted h); simpl; rewrite ?Nat.eqb_refl; simpl;
      now apply truthyModed_intro.
Qed.

(** As long as no value is falsy, every state the hook reaches from a
    created entity satisfies the mode invariant. *)
Lemma steps_wellModed
  (cs : list Call) (initialValue : JsVal) (isSaved : bool) (validator : Validator) :
  Js.truthy initialValue = true ->
  forallb callTruthy cs = true ->
  Entity.wellModed (state (steps cs (mount initialValue isSaved validator))) = true.
Proof.
  intros Hv Hcs. apply truthyModed_wellModed.
  assert (H0 : liveEntity (mount initialValue isSaved validator)
               = state (mount initialValue isSaved validator)
               /\ truthyModed (state (mount initialValue isSaved validator)) = true).
  { split; [reflexivity|].
    unfold mount, Entity.withDiagnostics, Entity.createSaved, Entity.createUnsaved.
    destruct isSaved; simpl;
      apply truthyModed_intro; auto using truthy_nullOrTruthy;
      rewrite ?(truthy_not_null _ Hv); reflexivity. }
  revert H0. generalize (mount initialValue isSaved validator) as h.
  unfold steps. induction cs as [|c cs IH]; intros h [Hsync Hinv]; [exact Hinv|].
  simpl in Hcs. apply Bool.andb_true_iff in Hcs. destruct Hcs as [Hc Hcs].
  simpl. apply (IH Hcs). now apply step_truthyModed.
Qed.

(** C6. The entities [createUnsaved] and [createSaved] build from a value
    that is not null satisfy the mode invariant, but the settlement of a
    save does not keep it: for the new entity with draft [0], the value
    captured by [latestValue] is null, and a save that resolves to
    undefined leaves draft and saved value both null. *)
Theorem save_breaks_mode_invariant :
  let h := mount (JNum 0) false noValidations in
  Entity.wellModed (Entity.createUnsaved (JNum 0)) = true
  /\ Entity.wellModed (state h) = true
  /\ fst (saveBegin h) = JNull
  /\ Entity.wellModed (state (fst (save (Resolved JUndefined) true h))) = false
  /\ Entity.bothNull (state (steps [CSave (Resolved JUndefined)] h)) = true.
Proof. repeat split. Qed.

End UseEntityFacts.

(* ================================================================= *)
(** * Further properties *)

(** ** Object paths *)

Section PathComposition.

Import ObjectPath.

Lemma create_single (p : Part) : create [p] = createPart p.
Proof. reflexivity. Qed.

(** X1. Building a path from a list of parts commutes with appending
    lists: [create] of [xs ++ ys] is the [concat] of the two paths, [prefix]
    adds a part in front of the list and [extend] one at its end. *)
Theorem create_composes :
  (forall xs ys : list Part, create (xs ++ ys) = concat (create xs) (create ys))
  /\ (forall (p : Part) (ps : list Part), prefix (create ps) p = create (p :: ps))
  /\ (forall (p : Part) (ps : list Part), extend (create ps) p = create (ps ++ [p]))
  /\ (forall ps : list Part, fromArray ps = create ps).
Proof.
  split; [exact create_app|]. split; [|split; [|reflexivity]].
  - intros p ps. unfold prefix. symmetry. apply create_cons.
  - intros p ps. unfold extend. now rewrite create_app, create_single.
Qed.

(** What [trimEnd] removes is a run of delimiters. *)
Lemma trimEnd_dots (s : string) :
  exists d, s = Lodash.trimEnd s DELIMITER ++ d
            /\ allChars (fun c => Lodash.inChars c DELIMITER) d = true.
Proof.
  induction s as [|c s (d & Hs & Hd)].
  - now exists "".
  - rewrite trimEnd_cons. destruct (Lodash.trimEnd s DELIMITER) as [|x r] eqn:E.
    + simpl in Hs. subst d. destruct (Lodash.inChars c DELIMITER) eqn:Hc.
      * exists (String c s). split; [reflexivity|].
        unfold allChars in *. simpl. now rewrite Hc.
      * exists s. split; [reflexivity | exact Hd].
    + exists d. split; [|exact Hd]. simpl. now rewrite Hs at 1.
Qed.

(** What [trimEnd] leaves does not end on the delimiter. *)
Lemma trimEnd_clean (s : string) :
  JsString.endsWith (Lodash.trimEnd s DELIMITER) DELIMITER = false.
Proof.
  unfold DELIMITER. induction s as [|c s IH]; [reflexivity|].
  rewrite trimEnd_cons. destruct (Lodash.trimEnd s ".") as [|x r] eqn:E.
  - destruct (Lodash.inChars c ".") eqn:Hc; [reflexivity|].
    rewrite endsWith_char_cons. unfold Lodash.inChars in Hc. simpl in Hc.
    now rewrite Bool.orb_false_r in Hc.
  - rewrite endsWith_char_cons. exact IH.
Qed.

(** X2. [toString] removes the whole run of trailing delimiters and nothing
    else: the path is its displayed form followed by delimiters only, the
    displayed form does not end on the delimiter, and displaying twice is
    displaying once. *)
Theorem toString_trims_delimiters (path : t) :
  (exists d, path = toString path ++ d
             /\ allChars (fun c => (c =? ".")%char) d = true)
  /\ JsString.endsWith (toString path) DELIMITER = false
  /\ toString (toString path) = toString path.
Proof.
  split; [|split].
  - destruct (trimEnd_dots path) as (d & Hp & Hd). exists d. split; [exact Hp|].
    revert Hd. apply allChars_impl. intros c Hc.
    unfold Lodash.inChars in Hc. simpl in Hc. now rewrite Bool.orb_false_r in Hc.
  - apply trimEnd_clean.
  - apply trimEnd_idempotent.
Qed.

(** A path that ends on the delimiter is its trimmed form followed by at
    least one delimiter. *)
Lemma delimited_split (a : t) :
  JsString.endsWith a DELIMITER = true ->
  exists d, a = Lodash.trimEnd a DELIMITER ++ String "." d.
Proof.
  intros Hend. destruct (trimEnd_dots a) as (d & Ha & Hd).
  destruct d as [|c d].
  - rewrite append_nil_r in Ha. rewrite Ha, trimEnd_clean in Hend. discriminate.
  - exists d. unfold allChars in Hd. simpl in Hd.
    apply Bool.andb_true_iff in Hd. destruct Hd as [Hc _].
    unfold Lodash.inChars in Hc. simpl in Hc. rewrite Bool.orb_false_r in Hc.
    apply Ascii.eqb_eq in Hc. now subst c.
Qed.

Lemma startsWith_concat (a b : t) : startsWith (concat a b) a = true.
Proof.
  destruct (string_dec a "") as [->|Ha]; [reflexivity|].
  destruct (JsString.endsWith a DELIMITER) eqn:Hend.
  - apply (startsWith_delimited _ a Hend).
    destruct (delimited_split a Hend) as (d & Hsplit).
    set (tr := Lodash.trimEnd a DELIMITER) in *.
    destruct (string_dec b "") as [->|Hb].
    + rewrite concat_empty_r. exists "."%char, d. auto.
    + rewrite concat_glue by assumption. unfold glue. rewrite Hend.
      destruct (JsString.startsWith b "[") eqn:Hb'; simpl.
      * assert (Hdrop : dropLast a = tr ++ dropLast (String "." d)).
        { rewrite Hsplit. apply dropLast_app. discriminate. }
        rewrite Hdrop, dropLast_cons. destruct d as [|x d].
        -- rewrite append_nil_r. rewrite startsWith_char in Hb'.
           destruct b as [|c b]; [discriminate|].
           apply Ascii.eqb_eq in Hb'. subst c. exists "["%char, b. auto.
        -- exists "."%char, (dropLast (String x d) ++ b).
           split; [|now left]. now rewrite append_assoc.
      * exists "."%char, (d ++ b). split; [|now left].
        rewrite Hsplit. now rewrite append_assoc.
  - unfold startsWith. apply String.eqb_neq in Ha. unfold EMPTY. rewrite Ha, Hend.
    apply String.eqb_neq in Ha.
    destruct (string_dec b "") as [->|Hb].
    + rewrite concat_empty_r. rewrite <- (append_nil_r a) at 1. apply startsWith_app.
    + rewrite concat_glue by assumption. unfold glue. rewrite Hend.
      destruct (JsString.startsWith b "["); simpl;
        rewrite ?append_assoc; apply startsWith_app.
Qed.

Lemma startsWith_refl (p : t) : startsWith p p = true.
Proof. rewrite <- (concat_empty_r p) at 1. apply startsWith_concat. Qed.

(** X3. A path always starts with the left operand it was concatenated
    from, whatever the two operands are; so every path starts with itself,
    an extended path starts with the path it extends, and a path prefixed
    with a part starts with the path of that part. *)
Theorem startsWith_concat_left (a b : t) (part : Part) :
  startsWith (concat a b) a = true
  /\ startsWith a a = true
  /\ startsWith (extend a part) a = true
  /\ startsWith (prefix b part) (create [part]) = true.
Proof.
  split; [apply startsWith_concat|]. split; [apply startsWith_refl|].
  split; apply startsWith_concat.
Qed.

End PathComposition.

Section PathRoundTrip.

Import ObjectPath.



(** [stringToPath] reads the displayed form of a well-behaved path back
    into the keys of its parts. *)
Lemma toPath_shownText (parts : list Part) :
  forallb safePart parts = true ->
  Lodash.toPath (shownText parts) = map partKey parts.
Proof.
  intros Hall. unfold Lodash.toPath, Lodash.stringToPath.
  rewrite (scan_shownText parts Hall _ (le_n _)).
  destruct parts as [|p ps]; [reflexivity|].
  simpl forallb in Hall. apply Bool.andb_true_iff in Hall. destruct Hall as [Hp _].
  destruct (shownText_head p ps Hp) as (c & r & -> & Hc).
  assert (Hd : (c =? ".")%char = false).
  { destruct (isIndexPart p).
    - now subst c.
    - unfold Lodash.isPathPunct in Hc.
      apply Bool.orb_false_iff in Hc. destruct Hc as [Hc _].
      apply Bool.orb_false_iff in Hc. tauto. }
  now rewrite Hd.
Qed.

Lemma toArray_create (parts : list Part) :
  forallb safePart parts = true ->
  toArray (create parts) = map (fun p => PStr (partKey p)) parts.
Proof.
  intros Hall. unfold toArray.
  rewrite (create_pathText parts Hall), (toString_pathText parts Hall).
  rewrite (toPath_shownText parts Hall). apply map_map.
Qed.

(** [create] looks at its parts only through [createPart]. *)
Lemma fold_extend_ext (xs ys : list Part) (acc : t) :
  map createPart xs = map createPart ys ->
  fold_left extend xs acc = fold_left extend ys acc.
Proof.
  revert ys acc. induction xs as [|x xs IH]; intros [|y ys] acc H;
    try discriminate; [reflexivity|].
  simpl in H. injection H as Hxy Hrest.
  simpl. unfold extend at 2 4. rewrite Hxy. now apply IH.
Qed.

Lemma createPart_key (p : Part) :
  roundTripPart p = true -> createPart (PStr (partKey p)) = createPart p.
Proof.
  destruct p as [s|n]; [reflexivity|].
  unfold roundTripPart. simpl. intros Hn.
  apply Bool.andb_true_iff in Hn. destruct Hn as [Hn _]. apply Z.leb_le in Hn.
  assert (Hd : allDigits (numberToString n) = true).
  { unfold numberToString. destruct n as [|q|q]; [reflexivity | | lia].
    apply nilzero_digits. }
  rewrite Hd. destruct (allDigits_chars _ Hd) as [Hne _].
  apply String.eqb_neq in Hne. now rewrite Hne.
Qed.

(** X5. The array [toArray] returns can be converted back:
    [fromArray(toArray(create(...parts)))] is the created path again, for
    parts whose field names are not empty and free of the delimiter and of
    brackets and whose indices are safe integers and not negative. *)
Theorem fromArray_toArray (parts : list Part) :
  forallb roundTripPart parts = true ->
  fromArray (toArray (create parts)) = create parts.
Proof.
  intros Hall.
  assert (Hsafe : forallb safePart parts = true).
  { rewrite forallb_forall in *. intros p Hp. specialize (Hall p Hp).
    unfold roundTripPart in Hall. now apply Bool.andb_true_iff in Hall. }
  rewrite (toArray_create parts Hsafe). unfold fromArray, create.
  apply fold_extend_ext. rewrite map_map.
  apply map_ext_in. intros p Hp. apply createPart_key.
  rewrite forallb_forall in Hall. now apply Hall.
Qed.

Lemma fromArray_toArray_witness :
  fromArray (toArray (create [PStr "criteria"; PNum 1; PStr "src_port_max"]))
  = create [PStr "criteria"; PNum 1; PStr "src_port_max"].
Proof.
  apply (fromArray_toArray [PStr "criteria"; PNum 1; PStr "src_port_max"]).
  reflexivity.
Defined.

(** A negative index is not converted back: its key is read as a field
    name.  Neither is an index printed in exponent notation. *)
Remark fromArray_toArray_negative_index :
  create [PNum (-3)] = "[-3]"
  /\ fromArray (toArray (create [PNum (-3)])) = "-3."
  /\ fromArray (toArray "[1e+21]") = "1e+21.".
Proof. repeat split. Qed.

End PathRoundTrip.

(** ** Diagnostics *)

Section DiagnosticFacts.

Lemma dashFree_no_separator (x y : string) : dashFree (x ++ "--" ++ y) = false.
Proof.
  unfold dashFree. rewrite !allChars_app. simpl.
  apply Bool.andb_false_r.
Qed.

(** A key splits in one way only when the type holds no dash. *)
Lemma key_split (p1 p2 t1 t2 : string) :
  dashFree t1 = true -> dashFree t2 = true ->
  p1 ++ "--" ++ t1 = p2 ++ "--" ++ t2 -> p1 = p2 /\ t1 = t2.
Proof.
  intros H1 H2. revert p2.
  induction p1 as [|c p1 IH]; intros [|c' p2] E; simpl in E.
  - injection E as E. auto.
  - injection E as Ec E. destruct p2 as [|c'' p2]; simpl in E.
    + injection E as E. subst t1. discriminate H1.
    + injection E as _ E. subst t1.
      change (p2 ++ String "-" (String "-" t2)) with (p2 ++ "--" ++ t2) in H1.
      now rewrite dashFree_no_separator in H1.
  - injection E as Ec E. destruct p1 as [|c'' p1]; simpl in E.
    + injection E as E. subst t2. discriminate H2.
    + injection E as _ E. subst t2.
      change (p1 ++ String "-" (String "-" t1)) with (p1 ++ "--" ++ t1) in H2.
      now rewrite dashFree_no_separator in H2.
  - injection E as Ec E. subst c'. destruct (IH p2 E) as [-> ->]. auto.
Qed.

(** X6. Two diagnostics whose types hold no dash have the same key only if
    they have the same type and the same displayed path. *)
Theorem diagnosticKey_unique (d1 d2 : Diagnostic.t) :
  dashFree (Diagnostic.type d1) = true ->
  dashFree (Diagnostic.type d2) = true ->
  DiagnosticKey.of_ d1 = DiagnosticKey.of_ d2 ->
  ObjectPath.toString (Diagnostic.path d1) = ObjectPath.toString (Diagnostic.path d2)
  /\ Diagnostic.type d1 = Diagnostic.type d2.
Proof.
  intros H1 H2 E. unfold DiagnosticKey.of_ in E. simpl in E.
  now apply key_split.
Qed.

Lemma diagnosticKey_unique_witness :
  ObjectPath.toString (Diagnostic.path errorEntry)
  = ObjectPath.toString
      (Diagnostic.path
         {| Diagnostic.message := "must be set"; Diagnostic.type := "required";
            Diagnostic.severity := Warning; Diagnostic.next := None;
            Diagnostic.path := "name" |})
  /\ Diagnostic.type errorEntry = "required".
Proof.
  apply (diagnosticKey_unique errorEntry
           {| Diagnostic.message := "must be set"; Diagnostic.type := "required";
              Diagnostic.severity := Warning; Diagnostic.next := None;
              Diagnostic.path := "name" |});
    reflexivity.
Defined.

(** With a dash in a type two different locations can share a key. *)
Remark diagnosticKey_collision :
  DiagnosticKey.of_
    {| Diagnostic.message := ""; Diagnostic.type := "b--c"; Diagnostic.severity := Error;
       Diagnostic.next := None; Diagnostic.path := ObjectPath.create [PStr "a"] |}
  = DiagnosticKey.of_
      {| Diagnostic.message := ""; Diagnostic.type := "c"; Diagnostic.severity := Error;
         Diagnostic.next := None; Diagnostic.path := ObjectPath.create [PStr "a--b"] |}.
Proof. reflexivity. Qed.

Lemma filter_all {A : Type} (f : A -> bool) (xs : list A) :
  (forall x, f x = true) -> filter f xs = xs.
Proof.
  intros H. induction xs as [|x xs IH]; [reflexivity|].
  simpl. now rewrite H, IH.
Qed.

Lemma filter_idempotent {A : Type} (f : A -> bool) (xs : list A) :
  filter f (filter f xs) = filter f xs.
Proof.
  induction xs as [|x xs IH]; [reflexivity|].
  simpl. destruct (f x) eqn:E; [|exact IH]. simpl. now rewrite E, IH.
Qed.

Lemma diagnosticsFor_filter (msgs : list Diagnostic.t) (pathPrefix : ObjectPath.t) :
  diagnosticsFor msgs pathPrefix = filter (fun d => Diagnostic.isFor d pathPrefix) msgs.
Proof.
  unfold diagnosticsFor. destruct (String.eqb_spec pathPrefix ObjectPath.EMPTY) as [->|_];
    [|reflexivity].
  symmetry. apply filter_all. reflexivity.
Qed.

(** X7. [diagnosticsFor] keeps, in order, exactly the diagnostics that are
    for the prefix, the empty prefix included; filtering again changes
    nothing, and filtering a concatenation is concatenating the filtered
    lists. *)
Theorem diagnosticsFor_selects (msgs more : list Diagnostic.t) (pathPrefix : ObjectPath.t) :
  diagnosticsFor msgs pathPrefix = filter (fun d => Diagnostic.isFor d pathPrefix) msgs
  /\ diagnosticsFor msgs ObjectPath.EMPTY = msgs
  /\ diagnosticsFor (diagnosticsFor msgs pathPrefix) pathPrefix
     = diagnosticsFor msgs pathPrefix
  /\ diagnosticsFor (msgs ++ more) pathPrefix
     = (diagnosticsFor msgs pathPrefix ++ diagnosticsFor more pathPrefix)%list.
Proof.
  split; [apply diagnosticsFor_filter|]. split; [reflexivity|]. split.
  - rewrite !diagnosticsFor_filter. apply filter_idempotent.
  - rewrite !diagnosticsFor_filter. apply filter_app.
Qed.

(** X8. The getter of a component finds every diagnostic located below the
    requested field of its model path: a diagnostic of the props whose path
    is the model path followed by a path that was prefixed with the field
    name is returned. *)
Theorem getter_finds_field_diagnostics
  (props : ShowsDiagnostics) (diagnostics : list Diagnostic.t)
  (prop : string) (d : Diagnostic.t) (rest : ObjectPath.t) :
  propsDiagnostics props = Some diagnostics ->
  In d diagnostics ->
  Diagnostic.path d
  = ObjectPath.concat (modelPathOrEmpty props) (ObjectPath.prefix rest (PStr prop)) ->
  In d (diagnosticGetterImplementation props prop).
Proof.
  intros Hprops Hin Hpath. unfold diagnosticGetterImplementation. rewrite Hprops.
  destruct diagnostics as [|d0 ds]; [contradiction|].
  simpl Nat.eqb. cbv iota.
  rewrite diagnosticsFor_filter. apply filter_In. split; [exact Hin|].
  unfold Diagnostic.isFor. rewrite Hpath. unfold ObjectPath.prefix, ObjectPath.extend.
  rewrite <- concat_assoc_strings.
  - apply startsWith_concat.
  - destruct (createPart_size (PStr prop)) as [H|H]; intros E; rewrite E in H;
      [discriminate | simpl in H; lia].
Qed.

Lemma getter_finds_field_diagnostics_witness :
  In errorEntry
     (diagnosticGetterImplementation
        {| propsDiagnostics := Some [warningEntry; errorEntry]; modelPath := None |}
        "name").
Proof.
  apply (getter_finds_field_diagnostics
           {| propsDiagnostics := Some [warningEntry; errorEntry]; modelPath := None |}
           [warningEntry; errorEntry] "name" errorEntry ObjectPath.EMPTY).
  - reflexivity.
  - right. left. reflexivity.
  - reflexivity.
Defined.

(** X9. An entity has errors exactly when the most severe of its
    diagnostics is an error. *)
Theorem hasErrors_maxSeverity (e : Entity.t) :
  Entity.hasErrors e
  = match maxSeverity (Some (Entity.diagnostics e)) with
    | Some Error => true
    | _ => false
    end.
Proof.
  unfold Entity.hasErrors, maxSeverity.
  set (ds := Entity.diagnostics e). clearbody ds.
  pose proof (sortBy_head (fun x => Severity.ordinal (Diagnostic.severity x)) ds) as H.
  destruct (Lodash.sortBy ds _) as [|m r].
  - subst ds. reflexivity.
  - destruct H as [Hin Hmin]. destruct ds as [|d0 ds']; [contradiction|].
    simpl Nat.eqb. cbv iota.
    destruct (existsb _ (d0 :: ds')) eqn:Hex.
    + apply existsb_exists in Hex. destruct Hex as (x & Hx & Hsev).
      rewrite Forall_forall in Hmin. specialize (Hmin x Hx).
      unfold Severity.eqb in Hsev. apply Z.eqb_eq in Hsev. simpl in Hsev.
      rewrite Hsev in Hmin. now destruct (Diagnostic.severity m).
    + destruct (Diagnostic.severity m) eqn:Hm; try reflexivity.
      assert (Hc : existsb (fun d => Severity.eqb (Diagnostic.severity d) Error)
                     (d0 :: ds') = true).
      { apply existsb_exists. exists m. split; [exact Hin|]. now rewrite Hm. }
      rewrite Hc in Hex. discriminate.
Qed.

End DiagnosticFacts.

(** ** Validators *)

Section StoreFacts.

Lemma modify_length (h : Store.t) (r : Store.Ref) (f : Diagnostic.t -> Diagnostic.t) :
  List.length (Store.modify h r f) = List.length h.
Proof.
  revert r. induction h as [|d h IH]; intros r; [reflexivity|].
  destruct r; simpl; [reflexivity | now rewrite IH].
Qed.

Lemma get_modify (h : Store.t) (r r' : Store.Ref) (f : Diagnostic.t -> Diagnostic.t) :
  Store.get (Store.modify h r f) r'
  = if (r' =? r)%nat then option_map f (Store.get h r') else Store.get h r'.
Proof.
  unfold Store.get. revert r r'. induction h as [|d h IH]; intros r r'.
  - simpl. destruct r'; now destruct (_ =? _)%nat.
  - destruct r as [|r], r' as [|r']; simpl; try reflexivity. apply IH.
Qed.

(** Assigning along an array of references applies the assignment to an
    object once for each of its occurrences in the array. *)
Lemma get_fold_modify (g : Diagnostic.t -> Diagnostic.t)
  (rs : list Store.Ref) (h : Store.t) (r : Store.Ref) :
  Store.get (fold_left (fun hp v => Store.modify hp v g) rs h) r
  = option_map (Nat.iter (count_occ Nat.eq_dec rs r) g) (Store.get h r).
Proof.
  revert h. induction rs as [|a rs IH]; intros h.
  - simpl. now destruct (Store.get h r).
  - simpl fold_left. rewrite IH, get_modify. simpl count_occ.
    destruct (Nat.eq_dec a r) as [->|Hne].
    + rewrite Nat.eqb_refl. destruct (Store.get h r); [|reflexivity].
      simpl. f_equal. symmetry. apply Nat.iter_succ_r.
    + assert (Hb : (r =? a)%nat = false) by (apply Nat.eqb_neq; congruence).
      now rewrite Hb.
Qed.

Lemma modify_app_here (h l : Store.t) (a : Diagnostic.t) (g : Diagnostic.t -> Diagnostic.t) :
  Store.modify (h ++ a :: l)%list (List.length h) g = (h ++ g a :: l)%list.
Proof. induction h as [|d h IH]; simpl; [reflexivity | now rewrite IH]. Qed.

(** On objects allocated in a row, the assignments are a [map]. *)
Lemma fold_modify_fresh (g : Diagnostic.t -> Diagnostic.t) (l h : Store.t) :
  fold_left (fun hp v => Store.modify hp v g) (seq (List.length h) (List.length l))
    (h ++ l)%list
  = (h ++ map g l)%list.
Proof.
  revert h. induction l as [|a l IH]; intros h; [reflexivity|].
  simpl. rewrite modify_app_here.
  change (h ++ g a :: l)%list with (h ++ [g a] ++ l)%list.
  change (h ++ g a :: map g l)%list with (h ++ [g a] ++ map g l)%list.
  rewrite !app_assoc.
  replace (S (List.length h)) with (List.length (h ++ [g a])%list)
    by (rewrite length_app; simpl; lia).
  apply IH.
Qed.

Lemma validateProperty_store {T : Type}
  (propName : Part) (validator : StoreValidator T) (value : T)
  (h : Store.t) (r : Store.Ref) :
  fst (validateProperty propName validator value h) = fst (validator value h)
  /\ Store.get (snd (validateProperty propName validator value h)) r
     = option_map
         (Nat.iter (count_occ Nat.eq_dec (fst (validator value h)) r)
            (prefixPath propName))
         (Store.get (snd (validator value h)) r).
Proof.
  unfold validateProperty. destruct (validator value h) as [ds h1]. simpl.
  split; [reflexivity | apply get_fold_modify].
Qed.

(** X10. [validateProperty] returns the array its validator returned, and
    in the store every diagnostic has had the property name put in front
    of its path once for each time it occurs in that array: once if the
    validator lists it once, not at all if it is not listed, and repeatedly
    if the validator lists the same object repeatedly. *)
Theorem validateProperty_prefixes_each_occurrence {T : Type}
  (propName : Part) (validator : StoreValidator T) (value : T)
  (h : Store.t) (r : Store.Ref) :
  fst (validateProperty propName validator value h) = fst (validator value h)
  /\ Store.get (snd (validateProperty propName validator value h)) r
     = option_map
         (Nat.iter (count_occ Nat.eq_dec (fst (validator value h)) r)
            (prefixPath propName))
         (Store.get (snd (validator value h)) r).
Proof. apply validateProperty_store. Qed.

(** X11. Every diagnostic in the array [validateProperty] returns is for
    the path of the property name. *)
Theorem validateProperty_isFor {T : Type}
  (propName : Part) (validator : StoreValidator T) (value : T)
  (h : Store.t) (r : Store.Ref) (d : Diagnostic.t) :
  In r (fst (validateProperty propName validator value h)) ->
  Store.get (snd (validateProperty propName validator value h)) r = Some d ->
  Diagnostic.isFor d (ObjectPath.create [propName]) = true.
Proof.
  destruct (validateProperty_store propName validator value h r) as [Hfst Hget].
  rewrite Hfst, Hget. intros Hin Hd.
  apply (count_occ_In Nat.eq_dec) in Hin.
  destruct (count_occ Nat.eq_dec (fst (validator value h)) r) as [|n]; [lia|].
  destruct (Store.get (snd (validator value h)) r) as [d0|]; [|discriminate].
  simpl in Hd. injection Hd as <-.
  unfold Diagnostic.isFor, prefixPath at 1, withPath. simpl Diagnostic.path.
  unfold ObjectPath.prefix. apply startsWith_concat.
Qed.

Lemma validateProperty_isFor_witness :
  Diagnostic.isFor (prefixPath (PStr "user") errorEntry) (ObjectPath.create [PStr "user"])
  = true.
Proof.
  apply (validateProperty_isFor (PStr "user") (allocating (fun _ : JsVal => [errorEntry]))
           JNull [] 0 (prefixPath (PStr "user") errorEntry)).
  - left. reflexivity.
  - reflexivity.
Defined.

Lemma validateProperty_allocating {T : Type}
  (propName : Part) (f : T -> list Diagnostic.t) (value : T) (h : Store.t) :
  validateProperty propName (allocating f) value h
  = allocating (fun x => map (prefixPath propName) (f x)) value h.
Proof.
  unfold validateProperty, allocating. rewrite length_map. f_equal.
  apply fold_modify_fresh.
Qed.

Lemma forListFrom_cons {T : Type}
  (validator : StoreValidator T) (x : T) (items : list T) (i : nat) (h : Store.t) :
  StoreValidators.forListFrom i validator (x :: items) h
  = let (ds, h1) := validateProperty (PNum (Z.of_nat i)) validator x h in
    let (more, h2) := StoreValidators.forListFrom (S i) validator items h1 in
    ((ds ++ more)%list, h2).
Proof. reflexivity. Qed.

Lemma forListFrom_allocating {T : Type}
  (f : T -> list Diagnostic.t) (items : list T) (i : nat) (h : Store.t) :
  StoreValidators.forListFrom i (allocating f) items h
  = allocating
      (flatMapFrom (fun j x => map (prefixPath (PNum (Z.of_nat j))) (f x)) i)
      items h.
Proof.
  revert i h. induction items as [|x items IH]; intros i h.
  - unfold allocating. simpl. now rewrite app_nil_r.
  - rewrite forListFrom_cons, validateProperty_allocating.
    unfold allocating at 1. rewrite IH. unfold allocating. simpl flatMapFrom.
    rewrite !length_app, seq_app, app_assoc. reflexivity.
Qed.

(** X12. For a validator that builds its diagnostics anew on every run,
    the assignments of [validateProperty] cannot be told from a pure
    function: [validateProperty] yields the validator's diagnostics with
    the property name in front of each path, and [forList] yields, for the
    items in order, the validator's diagnostics for each item with the
    index of the item in front of each path. *)
Theorem forList_prefixes_item_index {T : Type}
  (f : T -> list Diagnostic.t) (propName : Part) (value : T) (items : list T)
  (h : Store.t) :
  validateProperty propName (allocating f) value h
  = allocating (fun x => map (prefixPath propName) (f x)) value h
  /\ StoreValidators.forList (allocating f) items h
     = allocating
         (flatMapFrom (fun j x => map (prefixPath (PNum (Z.of_nat j))) (f x)) 0)
         items h.
Proof.
  split; [apply validateProperty_allocating | apply forListFrom_allocating].
Qed.

(** X13. [combine] of validators that build their diagnostics anew yields
    the diagnostics of all of them for the same value, in the order of the
    validators; no validators yield no diagnostics. *)
Theorem combine_concatenates {T : Type}
  (fs : list (T -> list Diagnostic.t)) (val : T) (h : Store.t) :
  StoreValidators.combine (map allocating fs) val h
  = allocating (fun x => flat_map (fun f => f x) fs) val h.
Proof.
  revert h. induction fs as [|f fs IH]; intros h.
  - unfold allocating. simpl. now rewrite app_nil_r.
  - simpl map. simpl StoreValidators.combine. unfold allocating at 1.
    rewrite IH. unfold allocating. simpl flat_map.
    rewrite !length_app, seq_app, app_assoc. reflexivity.
Qed.

(** A validator that hands out one object for every run has it prefixed
    by every index in turn. *)
Remark forList_shared_diagnostic :
  let shared : StoreValidator JsVal := fun _ h => ([0], h) in
  let out := StoreValidators.forList shared [JNull; JNull] [errorEntry] in
  fst out = [0; 0]
  /\ option_map Diagnostic.path (Store.get (snd out) 0) = Some "[1][0].name.".
Proof. split; reflexivity. Qed.

End StoreFacts.

(** ** Change handlers *)

Section ChangeHandlerFacts.

Import ControlledInput.

Lemma getField_setField_same (k : string) (v : JsVal) (fields : list (string * JsVal)) :
  JsObject.getField k (JsObject.setField k v fields) = Some v.
Proof.
  induction fields as [|[k' v'] rest IH]; simpl.
  - now rewrite String.eqb_refl.
  - destruct (k' =? k) eqn:E; simpl; now rewrite E.
Qed.

Lemma getField_setField_other (k k' : string) (v : JsVal) (fields : list (string * JsVal)) :
  k' <> k ->
  JsObject.getField k' (JsObject.setField k v fields) = JsObject.getField k' fields.
Proof.
  intros Hne. induction fields as [|[k0 v0] rest IH]; simpl.
  - apply String.eqb_neq in Hne. rewrite String.eqb_sym in Hne. now rewrite Hne.
  - destruct (k0 =? k) eqn:E; simpl.
    + apply String.eqb_eq in E. subst k0.
      assert (Hb : (k =? k') = false) by (apply String.eqb_neq; congruence).
      now rewrite Hb.
    + now rewrite IH.
Qed.

(** X14. A handler of a component that is disabled, or that was given no
    [onChange], does nothing: the replace handler makes no call, and the
    field handler makes no call and throws nothing, also when it is given
    no field name. *)
Theorem handlers_inert_when_disabled
  (n : option string) (cb : option nat) (v val : JsVal) (d : option bool)
  (fieldName : option string) :
  replaceChangeHandlerImplementation
    {| name := n; onChange := cb; value := v; disabled := Some true |} val = NoCall
  /\ fieldChangeHandlerImplementation
       {| name := n; onChange := cb; value := v; disabled := Some true |} val fieldName
     = NoCall
  /\ replaceChangeHandlerImplementation
       {| name := n; onChange := None; value := v; disabled := d |} val = NoCall
  /\ fieldChangeHandlerImplementation
       {| name := n; onChange := None; value := v; disabled := d |} val fieldName
     = NoCall.
Proof.
  unfold replaceChangeHandlerImplementation, fieldChangeHandlerImplementation, inert.
  simpl. repeat split; now destruct d as [[]|].
Qed.

(** X15. A handler of a component that is not disabled and has an
    [onChange] calls it once, with the name of the component: the replace
    handler with the new value as it is; the field handler with a copy of
    the component's value in which the named field holds the new value and
    every other field is unchanged, or with a thrown [MissingFieldError]
    instead when it is given no field name. *)
Theorem handlers_emit_when_enabled (props : t) (cb : nat) (val : JsVal) :
  disabled props <> Some true ->
  onChange props = Some cb ->
  replaceChangeHandlerImplementation props val = Calls cb val (name props)
  /\ fieldChangeHandlerImplementation props val None = ThrowsMissingFieldError
  /\ (forall k : string,
        exists fields,
          fieldChangeHandlerImplementation props val (Some k)
          = Calls cb (JObj fields) (name props)
          /\ JsObject.getField k fields = Some val
          /\ (forall k', k' <> k ->
                JsObject.getField k' fields
                = JsObject.getField k' (JsObject.spread (value props)))).
Proof.
  intros Hd Hcb.
  assert (Hinert : inert props = false).
  { unfold inert. rewrite Hcb. destruct (disabled props) as [[]|]; congruence. }
  unfold replaceChangeHandlerImplementation, fieldChangeHandlerImplementation.
  rewrite Hinert, Hcb. split; [reflexivity|]. split; [reflexivity|].
  intros k. eexists. split; [reflexivity|]. split.
  - apply getField_setField_same.
  - intros k' Hne. now apply getField_setField_other.
Qed.

Lemma handlers_emit_when_enabled_witness :
  replaceChangeHandlerImplementation
    {| name := Some "user"; onChange := Some 7; value := objA 0; disabled := None |}
    (objA 1)
  = Calls 7 (objA 1) (Some "user").
Proof.
  apply (handlers_emit_when_enabled
           {| name := Some "user"; onChange := Some 7; value := objA 0; disabled := None |}
           7 (objA 1)).
  - discriminate.
  - reflexivity.
Defined.

End ChangeHandlerFacts.

(** ** More on the hook *)

Section HookFacts.

Import UseEntity.

(** X16. Every method publishes a copy of the entity of the last render,
    not of the state: while the hook is mounted, of two calls with no
    render in between only the second one takes effect, whatever the first
    one was, and the entity of the last render stays as it is. *)
Theorem second_call_overrides_first (m1 m2 : Method) (h : Hook) :
  isUnmounted h = false ->
  state (invoke m2 (invoke m1 h)) = state (invoke m2 h)
  /\ liveEntity (invoke m1 h) = liveEntity h.
Proof.
  intros Hlive.
  destruct m1 as [| | | |v1 [r1|e1]], m2 as [| | | |v2 [r2|e2]];
    simpl; unfold saveSettle; rewrite ?Hlive; simpl; rewrite ?Hlive; split; reflexivity.
Qed.

Lemma second_call_overrides_first_witness :
  state (invoke (MUpdateSaved (objA 2)) (invoke (MUpdate (objA 3)) editedHook))
  = state (invoke (MUpdateSaved (objA 2)) editedHook).
Proof.
  apply (second_call_overrides_first (MUpdate (objA 3)) (MUpdateSaved (objA 2)) editedHook).
  reflexivity.
Defined.

(** X17. A render settles: rendering once more with the same validator
    changes nothing, and after any render the entity of the last render is
    the state and the live validator is the one passed. *)
Theorem render_settles (validator : Validator) (h : Hook) :
  render validator (render validator h) = render validator h
  /\ liveEntity (render validator h) = state (render validator h)
  /\ liveValidator (render validator h) = validator.
Proof.
  split; [|split; reflexivity].
  unfold render at 1. simpl. now rewrite Nat.eqb_refl.
Qed.

(** X18. After a save that resolved to a value while the hook was mounted,
    the entity is saved, has no unsaved changes, and its latest value is
    the resolved value, whatever that value and the entity before were. *)
Theorem resolved_save_is_clean (h : Hook) (valueAtSaveTime fromPromise : JsVal) :
  isUnmounted h = false ->
  isNonVoid fromPromise = true ->
  let e := state (fst (saveSettle valueAtSaveTime (Resolved fromPromise) h)) in
  Entity.latestValue e = fromPromise
  /\ Entity.isSaved e = true
  /\ Entity.isNew e = false
  /\ hasUnsavedChanges e = false
  /\ Entity.wellModed e = true
  /\ Entity.hasErrors e
     = existsb (fun d => Severity.eqb (Diagnostic.severity d) Error)
         (run (liveValidator h) fromPromise).
Proof.
  intros Hlive Hr. unfold saveSettle. rewrite Hlive, Hr. simpl.
  unfold Entity.isSaved, Entity.isNew, Entity.wellModed, Entity.hasErrors. simpl.
  unfold isNonVoid in Hr. apply Bool.andb_true_iff in Hr. destruct Hr as [Hn _].
  apply Bool.negb_true_iff in Hn. rewrite Hn. repeat split.
Qed.

Lemma resolved_save_is_clean_witness :
  Entity.latestValue
    (state (fst (saveSettle (objA 1) (Resolved (JNum 0)) (snd (saveBegin editedHook)))))
  = JNum 0.
Proof.
  apply (resolved_save_is_clean (snd (saveBegin editedHook)) (objA 1) (JNum 0));
    reflexivity.
Defined.

End HookFacts.

(** ** Prefix tests and lists of parts *)

Section StartsWithParts.

Import ObjectPath.

Lemma numericKey_noClose (k : string) :
  numericKey k = true -> allChars (fun c => negb (c =? "]")%char) k = true.
Proof.
  intros H. destruct (numericKey_split k H) as [(d & -> & Hd)|Hd];
    apply allDigits_chars in Hd; destruct Hd as [_ Hd].
  - change (String "-" d) with ("-" ++ d). rewrite allChars_app.
    apply Bool.andb_true_iff. split; [reflexivity|].
    revert Hd. apply allChars_impl. intros c Hc.
    destruct (digit_plain c Hc) as [Hp _]. unfold notPunct, Lodash.isPathPunct in Hp.
    apply Bool.negb_true_iff, Bool.orb_false_iff in Hp. destruct Hp as [_ ->]. reflexivity.
  - revert Hd. apply allChars_impl. intros c Hc.
    destruct (digit_plain c Hc) as [Hp _]. unfold notPunct, Lodash.isPathPunct in Hp.
    apply Bool.negb_true_iff, Bool.orb_false_iff in Hp. destruct Hp as [_ ->]. reflexivity.
Qed.

(** Two bracketed indices that open the same text are the same. *)
Lemma head_index_eq (p q : Part) (A B : string) :
  isIndexPart p = true -> isIndexPart q = true ->
  headText p ++ A = headText q ++ B -> headText p = headText q /\ A = B.
Proof.
  intros Hp Hq. unfold headText. rewrite Hp, Hq. rewrite !append_assoc.
  simpl. intros E.
  assert (E' : partKey p ++ String "]" A = partKey q ++ String "]" B)
    by (inversion E; reflexivity).
  clear E. rename E' into E.
  pose proof (span_stop (fun c => negb (c =? "]")%char) (partKey p) (String "]" A)
                (numericKey_noClose _ (partKey_numeric p Hp)) eq_refl) as Sp.
  pose proof (span_stop (fun c => negb (c =? "]")%char) (partKey q) (String "]" B)
                (numericKey_noClose _ (partKey_numeric q Hq)) eq_refl) as Sq.
  rewrite E, Sq in Sp. inversion Sp as [[Hk HA]]. rewrite Hk. auto.
Qed.

(** Two field names that open the same text and stop at punctuation are
    the same. *)
Lemma head_name_eq (p q : Part) (A B : string) :
  safePart p = true -> safePart q = true ->
  isIndexPart p = false -> isIndexPart q = false ->
  boundary notPunct A = true -> boundary notPunct B = true ->
  headText p ++ A = headText q ++ B -> headText p = headText q /\ A = B.
Proof.
  intros Sp Sq Hp Hq HA HB. unfold headText. rewrite Hp, Hq.
  destruct p as [s|n]; [|discriminate]. destruct q as [s'|n']; [|discriminate].
  simpl in *. intros E.
  unfold safeName in Sp, Sq.
  apply Bool.andb_true_iff in Sp. destruct Sp as [_ Sp].
  apply Bool.andb_true_iff in Sq. destruct Sq as [_ Sq].
  pose proof (span_stop notPunct s A Sp HA) as S1.
  pose proof (span_stop notPunct s' B Sq HB) as S2.
  rewrite E, S2 in S1. now injection S1 as -> ->.
Qed.

Lemma head_kind_eq (p q : Part) (A B : string) :
  safePart p = true -> safePart q = true ->
  headText p ++ A = headText q ++ B -> isIndexPart p = isIndexPart q.
Proof.
  intros Sp Sq E.
  rewrite <- (headText_bracket p A Sp), <- (headText_bracket q B Sq). now rewrite E.
Qed.

Lemma head_eq (p q : Part) (A B : string) :
  safePart p = true -> safePart q = true ->
  (isIndexPart p = true \/ (boundary notPunct A = true /\ boundary notPunct B = true)) ->
  headText p ++ A = headText q ++ B -> headText p = headText q /\ A = B.
Proof.
  intros Sp Sq Hside E. pose proof (head_kind_eq p q A B Sp Sq E) as Hk.
  destruct (isIndexPart p) eqn:Hp.
  - now apply head_index_eq.
  - destruct Hside as [Hside|[HA HB]]; [discriminate|].
    now apply head_name_eq.
Qed.

(** what follows the first part in the displayed form *)
Lemma shownText_cons (p : Part) (ps : list Part) :
  shownText (p :: ps)
  = headText p ++ match ps with [] => "" | q :: _ => leadText q ++ shownText ps end.
Proof. reflexivity. Qed.

Lemma lead_shown_boundary (q : Part) (ps : list Part) (R : string) :
  safePart q = true ->
  boundary notPunct ((leadText q ++ shownText (q :: ps)) ++ R) = true.
Proof.
  intros Sq. unfold leadText. destruct (isIndexPart q) eqn:Hq; [|reflexivity].
  destruct (shownText_head q ps Sq) as (c & r & -> & Hc). rewrite Hq in Hc. now subst c.
Qed.

Lemma lead_head_first (q : Part) (ps : list Part) (R : string) :
  safePart q = true ->
  JsString.startsWith ((leadText q ++ shownText (q :: ps)) ++ R) "." = negb (isIndexPart q).
Proof.
  intros Sq. unfold leadText. destruct (isIndexPart q) eqn:Hq.
  - destruct (shownText_head q ps Sq) as (c & r & -> & Hc). rewrite Hq in Hc. now subst c.
  - now rewrite startsWith_char.
Qed.

Lemma pathText_delimiter_tail (p : Part) (q : Part) (ps : list Part) :
  safePart q = true ->
  JsString.endsWith (pathText (p :: q :: ps)) DELIMITER
  = JsString.endsWith (pathText (q :: ps)) DELIMITER.
Proof.
  intros Sq.
  change (pathText (p :: q :: ps)) with (headText p ++ leadText q ++ pathText (q :: ps)).
  rewrite <- append_assoc. apply endsWith_char_app. now apply pathText_cons_nonempty.
Qed.

(** If the displayed form of [ys] opens with that of [xs], and [xs] ends on
    an index or is followed by punctuation, then [ys] opens with the parts
    of [xs]. *)
Lemma shown_prefix_parts (xs : list Part) :
  forallb safePart xs = true ->
  forall (ys : list Part) (R : string),
    forallb safePart ys = true ->
    shownText ys = shownText xs ++ R ->
    (boundary notPunct R = true \/ JsString.endsWith (pathText xs) DELIMITER = false) ->
    exists ys1 ys2, ys = (ys1 ++ ys2)%list /\ map headText ys1 = map headText xs.
Proof.
  induction xs as [|x xs IH]; intros Sx ys R Sy E Hside.
  { exists [], ys. auto. }
  simpl forallb in Sx. apply Bool.andb_true_iff in Sx. destruct Sx as [Sx Sxs].
  destruct ys as [|y ys].
  { simpl in E. symmetry in E. apply append_eq_nil in E. destruct E as [E _].
    apply append_eq_nil in E. destruct E as [E _]. now apply headText_nonempty in E. }
  simpl forallb in Sy. apply Bool.andb_true_iff in Sy. destruct Sy as [Sy Sys].
  destruct xs as [|x2 xs].
  - (* the last part of [xs] *)
    assert (E1 : headText x ++ R
                 = headText y ++ match ys with
                                 | [] => ""
                                 | q :: _ => leadText q ++ shownText ys
                                 end).
    { rewrite <- shownText_cons, E. simpl shownText. now rewrite append_assoc. }
    assert (Hc : isIndexPart x = true
                 \/ (boundary notPunct R = true
                     /\ boundary notPunct
                          match ys with
                          | [] => ""
                          | q :: _ => leadText q ++ shownText ys
                          end = true)).
    { destruct Hside as [HR|Hend].
      - right. split; [exact HR|]. destruct ys as [|y2 ys]; [reflexivity|].
        simpl forallb in Sys. apply Bool.andb_true_iff in Sys. destruct Sys as [Sy2 _].
        rewrite <- (append_nil_r (leadText y2 ++ shownText (y2 :: ys))).
        now apply lead_shown_boundary.
      - left. simpl in Hend. unfold leadText in Hend.
        destruct (isIndexPart x); [reflexivity|].
        now rewrite endsWith_char_snoc in Hend. }
    destruct (head_eq x y _ _ Sx Sy Hc E1) as [Hh _].
    exists [y], ys. split; [reflexivity | simpl; now rewrite Hh].
  - simpl forallb in Sxs. pose proof Sxs as Sxs'.
    apply Bool.andb_true_iff in Sxs'. destruct Sxs' as [Sx2 _].
    assert (E1 : headText x ++ ((leadText x2 ++ shownText (x2 :: xs)) ++ R)
                 = headText y ++ match ys with
                                 | [] => ""
                                 | q :: _ => leadText q ++ shownText ys
                                 end).
    { rewrite <- shownText_cons, E.
      change (shownText (x :: x2 :: xs))
        with (headText x ++ leadText x2 ++ shownText (x2 :: xs)).
      now rewrite !append_assoc. }
    destruct ys as [|y2 ys].
    { assert (Hc : isIndexPart x = true
                   \/ (boundary notPunct ((leadText x2 ++ shownText (x2 :: xs)) ++ R) = true
                       /\ boundary notPunct "" = true)).
      { right. split; [now apply lead_shown_boundary | reflexivity]. }
      destruct (head_eq x y _ _ Sx Sy Hc E1) as [_ Hrest].
      apply append_eq_nil in Hrest. destruct Hrest as [Hrest _].
      apply append_eq_nil in Hrest. destruct Hrest as [_ Hrest].
      now apply shownText_cons_nonempty in Hrest. }
    simpl forallb in Sys. pose proof Sys as Sys'.
    apply Bool.andb_true_iff in Sys'. destruct Sys' as [Sy2 _].
    assert (Hc : isIndexPart x = true
                 \/ (boundary notPunct ((leadText x2 ++ shownText (x2 :: xs)) ++ R) = true
                     /\ boundary notPunct (leadText y2 ++ shownText (y2 :: ys)) = true)).
    { right. split; [now apply lead_shown_boundary|].
      rewrite <- (append_nil_r (leadText y2 ++ shownText (y2 :: ys))).
      now apply lead_shown_boundary. }
    destruct (head_eq x y _ _ Sx Sy Hc E1) as [Hh Hrest].
    assert (Hkind : isIndexPart x2 = isIndexPart y2).
    { pose proof (lead_head_first x2 xs R Sx2) as H1.
      pose proof (lead_head_first y2 ys "" Sy2) as H2.
      rewrite append_nil_r in H2. rewrite Hrest, H2 in H1.
      now destruct (isIndexPart x2), (isIndexPart y2). }
    assert (Hshown : shownText (y2 :: ys) = shownText (x2 :: xs) ++ R).
    { unfold leadText in Hrest. rewrite Hkind in Hrest.
      destruct (isIndexPart y2).
      - now symmetry.
      - change (String "." (shownText (x2 :: xs) ++ R)
                = String "." (shownText (y2 :: ys))) in Hrest.
        inversion Hrest as [Hr]. symmetry. exact Hr. }
    destruct (IH Sxs (y2 :: ys) R Sys Hshown) as (ys1 & ys2 & Hys & Hmap).
    { destruct Hside as [HR|Hend]; [now left | right].
      now rewrite pathText_delimiter_tail in Hend. }
    exists (y :: ys1), ys2. split; [simpl; now rewrite Hys | simpl; now rewrite Hh, Hmap].
Qed.

(** The internal form is the displayed form, followed by one delimiter
    when the last part is a field name. *)
Lemma pathText_trail (ps : list Part) :
  exists trail, pathText ps = shownText ps ++ trail /\ (trail = "" \/ trail = ".").
Proof.
  induction ps as [|p ps (trail & IH & Ht)].
  - exists "". auto.
  - destruct ps as [|q ps].
    + exists (leadText p). split.
      * simpl. now rewrite append_nil_r.
      * unfold leadText. destruct (isIndexPart p); auto.
    + exists trail. split; [|exact Ht].
      change (pathText (p :: q :: ps)) with (headText p ++ leadText q ++ pathText (q :: ps)).
      change (shownText (p :: q :: ps)) with (headText p ++ leadText q ++ shownText (q :: ps)).
      rewrite IH. now rewrite !append_assoc.
Qed.

Lemma snoc_delimiter_split (B A rest : string) (c : ascii) :
  A ++ "." = B ++ String c rest ->
  (rest = "" /\ c = "."%char /\ A = B)
  \/ (exists rest', rest = rest' ++ "." /\ A = B ++ String c rest').
Proof.
  revert A. induction B as [|b B IH]; intros A E.
  - destruct A as [|a A]; simpl in E.
    + inversion E. left. auto.
    + inversion E. right. exists A. auto.
  - destruct A as [|a A]; simpl in E.
    + inversion E as [[Hb Hnil]]. destruct B; discriminate.
    + inversion E as [[Hab Hrest]]. destruct (IH A Hrest) as [(-> & -> & ->)|(r' & -> & ->)].
      * left. auto.
      * right. exists r'. auto.
Qed.

Lemma headText_createPart (p q : Part) :
  safePart p = true -> safePart q = true ->
  headText p = headText q -> createPart p = createPart q.
Proof.
  intros Sp Sq Hh. rewrite !createPart_text by assumption.
  assert (Hk : isIndexPart p = isIndexPart q).
  { apply (head_kind_eq p q "" "" Sp Sq). now rewrite Hh. }
  unfold leadText. now rewrite Hh, Hk.
Qed.

Lemma map_headText_createPart (l1 l2 : list Part) :
  forallb safePart l1 = true -> forallb safePart l2 = true ->
  map headText l1 = map headText l2 -> map createPart l1 = map createPart l2.
Proof.
  revert l2. induction l1 as [|p l1 IH]; intros [|q l2] S1 S2 E; try discriminate;
    [reflexivity|].
  simpl in S1, S2. apply Bool.andb_true_iff in S1, S2.
  destruct S1 as [Sp S1], S2 as [Sq S2]. simpl in E. inversion E as [[Hh Hrest]].
  simpl. now rewrite (headText_createPart p q Sp Sq Hh), (IH l2 S1 S2 Hrest).
Qed.

Lemma startsWith_created_parts (xs ys : list Part) :
  forallb safePart xs = true -> forallb safePart ys = true ->
  startsWith (create ys) (create xs) = true ->
  exists ys1 ys2, ys = (ys1 ++ ys2)%list /\ map createPart ys1 = map createPart xs.
Proof.
  intros Sx Sy. rewrite (create_pathText xs Sx), (create_pathText ys Sy). intros Hsw.
  destruct xs as [|x xs0]; [exists [], ys; auto|].
  set (xs := x :: xs0) in *.
  assert (Hne : pathText xs <> "").
  { apply pathText_cons_nonempty. simpl in Sx. now apply Bool.andb_true_iff in Sx. }
  destruct (pathText_trail ys) as (tq & Hq & Htq).
  destruct (pathText_trail xs) as (tp & Hp & Htp).
  assert (Hshown : exists R, shownText ys = shownText xs ++ R
                             /\ (boundary notPunct R = true
                                 \/ JsString.endsWith (pathText xs) DELIMITER = false)).
  { destruct (JsString.endsWith (pathText xs) DELIMITER) eqn:Hend.
    - apply (startsWith_delimited _ _ Hend) in Hsw.
      destruct Hsw as (c & rest & HQ & Hc).
      fold (toString (pathText xs)) in HQ. rewrite (toString_pathText xs Sx) in HQ.
      assert (Hcb : forall r, boundary notPunct (String c r) = true).
      { intros r. destruct Hc as [-> | ->]; reflexivity. }
      rewrite Hq in HQ. destruct Htq as [-> | ->].
      + rewrite append_nil_r in HQ. exists (String c rest). auto.
      + destruct (snoc_delimiter_split _ _ _ _ HQ) as [(_ & _ & E)|(r' & _ & E)].
        * exists "". rewrite append_nil_r. auto.
        * exists (String c r'). auto.
    - assert (Hp' : pathText xs = shownText xs).
      { destruct Htp as [-> | ->]; [now rewrite append_nil_r in Hp|].
        rewrite Hp in Hend. unfold DELIMITER in Hend.
        now rewrite endsWith_char_snoc in Hend. }
      unfold startsWith in Hsw. apply String.eqb_neq in Hne. unfold EMPTY in Hsw.
      rewrite Hne, Hend in Hsw. apply startsWith_split in Hsw. destruct Hsw as [R0 HQ].
      rewrite Hq, Hp' in HQ. destruct Htq as [-> | ->].
      + rewrite append_nil_r in HQ. exists R0. auto.
      + destruct R0 as [|c rest].
        * rewrite append_nil_r in HQ. rewrite Hp', <- HQ in Hend.
          unfold DELIMITER in Hend. now rewrite endsWith_char_snoc in Hend.
        * destruct (snoc_delimiter_split _ _ _ _ HQ) as [(_ & _ & E)|(r' & _ & E)].
          -- exists "". rewrite append_nil_r. auto.
          -- exists (String c r'). auto. }
  destruct Hshown as (R & HR & Hside).
  destruct (shown_prefix_parts xs Sx ys R Sy HR Hside) as (ys1 & ys2 & Hys & Hmap).
  exists ys1, ys2. split; [exact Hys|].
  apply map_headText_createPart; [|exact Sx|exact Hmap].
  rewrite Hys, forallb_app in Sy. now apply Bool.andb_true_iff in Sy.
Qed.

Lemma startsWith_parts_back (xs ys1 ys2 : list Part) :
  map createPart ys1 = map createPart xs ->
  startsWith (create (ys1 ++ ys2)) (create xs) = true.
Proof.
  intros Hmap. rewrite create_app. unfold create at 1.
  rewrite (fold_extend_ext ys1 xs EMPTY Hmap). fold (create xs).
  apply startsWith_concat.
Qed.

(** X19. On paths created from parts whose field names are not empty and
    free of the delimiter and of brackets, [startsWith] is the prefix
    order of the lists of parts: the path of [ys] starts with the path of
    [xs] exactly when [ys] opens with parts that render as those of [xs]. *)
Theorem startsWith_is_part_prefix (xs ys : list Part) :
  forallb safePart xs = true -> forallb safePart ys = true ->
  (startsWith (create ys) (create xs) = true
   <-> exists ys1 ys2,
         ys = (ys1 ++ ys2)%list /\ map createPart ys1 = map createPart xs).
Proof.
  intros Sx Sy. split; [now apply startsWith_created_parts|].
  intros (ys1 & ys2 & -> & Hmap). now apply startsWith_parts_back.
Qed.

Lemma startsWith_is_part_prefix_witness :
  exists ys1 ys2,
    [PStr "criteria"; PStr "1"; PStr "src_port_max"] = (ys1 ++ ys2)%list
    /\ map createPart ys1 = map createPart [PStr "criteria"; PNum 1].
Proof.
  apply (startsWith_is_part_prefix [PStr "criteria"; PNum 1]
           [PStr "criteria"; PStr "1"; PStr "src_port_max"]);
    reflexivity.
Defined.

End StartsWithParts.

(** ** Deep equality and unsaved changes *)

Section UnsavedChanges.

(** induction on values, with the hypothesis for every property of an
    object *)
Lemma JsVal_nested_ind (P : JsVal -> Prop) :
  P JUndefined -> P JNull ->
  (forall b, P (JBool b)) -> (forall n, P (JNum n)) -> (forall s, P (JStr s)) ->
  (forall fields, Forall (fun kv => P (snd kv)) fields -> P (JObj fields)) ->
  forall v, P v.
Proof.
  intros Hu Hn Hb Hz Hs Ho. fix IH 1.
  intros [| |b|n|s|fields]; [exact Hu | exact Hn | apply Hb | apply Hz | apply Hs |].
  apply Ho. revert fields. fix IHf 1. intros [|[k x] fields].
  - constructor.
  - constructor; [apply IH | apply IHf].
Qed.

Lemma getField_distinct (fields : list (string * JsVal)) (k : string) (x : JsVal) :
  distinct (map fst fields) = true -> In (k, x) fields ->
  JsObject.getField k fields = Some x.
Proof.
  induction fields as [|[k' x'] fields IH]; [contradiction|].
  simpl. intros Hd Hin. apply Bool.andb_true_iff in Hd. destruct Hd as [Hnew Hd].
  destruct Hin as [E|Hin].
  - inversion E. subst. now rewrite String.eqb_refl.
  - destruct (String.eqb_spec k' k) as [->|_]; [|now apply IH].
    apply Bool.negb_true_iff in Hnew.
    assert (Hex : existsb (String.eqb k) (map fst fields) = true).
    { apply existsb_exists. exists k. split; [|apply String.eqb_refl].
      apply in_map_iff. now exists (k, x). }
    rewrite Hex in Hnew. discriminate.
Qed.

(** A value whose objects name each property once is deep-equal to
    itself. *)
Lemma isEqual_refl (v : JsVal) : distinctKeys v = true -> isEqual v v = true.
Proof.
  induction v as [| |b|n|s|fields IH] using JsVal_nested_ind; intros Hd; simpl;
    try reflexivity.
  - now destruct b.
  - apply Z.eqb_refl.
  - apply String.eqb_refl.
  - simpl in Hd. apply Bool.andb_true_iff in Hd. destruct Hd as [Hkeys Hvals].
    rewrite Nat.eqb_refl. simpl. apply forallb_forall. intros [k x] Hin.
    rewrite (getField_distinct fields k x Hkeys Hin).
    rewrite Forall_forall in IH. apply (IH (k, x) Hin).
    rewrite forallb_forall in Hvals. apply (Hvals (k, x) Hin).
Qed.

Lemma isEqual_null_r (v : JsVal) : isEqual v JNull = Js.isNull v.
Proof. now destruct v. Qed.

(** X20. An entity created as saved has no unsaved changes and one created
    as unsaved, from a value that is not null, has; after [update(v)] there
    are unsaved changes exactly when [v] is not null and not deep-equal to
    the saved value, so updating back to the saved value clears them. *)
Theorem unsaved_changes_follow_draft (h : UseEntity.Hook) (v : JsVal) :
  hasUnsavedChanges (Entity.createSaved v) = false
  /\ hasUnsavedChanges (Entity.createUnsaved v) = negb (Js.isNull v)
  /\ hasUnsavedChanges (UseEntity.state (UseEntity.update v h))
     = negb (Js.isNull v) && negb (isEqual v (Entity.saved (UseEntity.liveEntity h)))
  /\ (distinctKeys v = true ->
      Entity.saved (UseEntity.liveEntity h) = v ->
      hasUnsavedChanges (UseEntity.state (UseEntity.update v h)) = false).
Proof.
  split; [reflexivity|]. split; [|split].
  - unfold hasUnsavedChanges. simpl. rewrite isEqual_null_r.
    now destruct (Js.isNull v).
  - reflexivity.
  - intros Hd Hs. unfold hasUnsavedChanges. simpl. rewrite Hs, (isEqual_refl v Hd).
    apply Bool.andb_false_r.
Qed.

Lemma unsaved_changes_follow_draft_witness :
  hasUnsavedChanges (UseEntity.state (UseEntity.update (objA 0) editedHook)) = false.
Proof.
  apply (unsaved_changes_follow_draft editedHook (objA 0)); reflexivity.
Defined.

(** Deep equality does not look at the order of the properties. *)
Remark isEqual_ignores_property_order :
  isEqual (JObj [("a", JNum 1); ("b", JStr "x")]) (JObj [("b", JStr "x"); ("a", JNum 1)])
  = true.
Proof. reflexivity. Qed.

End UnsavedChanges.

(** ** More on diagnostics *)

Section DiagnosticOrder.

Lemma ordinal_injective (a b : Severity) :
  Severity.ordinal a = Severity.ordinal b -> a = b.
Proof. destruct a, b; simpl; intros H; try reflexivity; discriminate H. Qed.

(** [maxSeverity] only depends on which diagnostics the list holds. *)
Lemma maxSeverity_same_elements (ds ds' : list Diagnostic.t) :
  (forall x, In x ds <-> In x ds') ->
  maxSeverity (Some ds) = maxSeverity (Some ds').
Proof.
  intros Hsame. unfold maxSeverity.
  pose proof (sortBy_head (fun x => Severity.ordinal (Diagnostic.severity x)) ds) as H.
  pose proof (sortBy_head (fun x => Severity.ordinal (Diagnostic.severity x)) ds') as H'.
  destruct (Lodash.sortBy ds _) as [|m r], (Lodash.sortBy ds' _) as [|m' r'].
  - subst. reflexivity.
  - subst ds. destruct H' as [Hin _]. apply Hsame in Hin. contradiction.
  - subst ds'. destruct H as [Hin _]. apply Hsame in Hin. contradiction.
  - destruct H as [Hin Hmin], H' as [Hin' Hmin'].
    rewrite Forall_forall in Hmin, Hmin'.
    pose proof (Hmin m' (proj2 (Hsame m') Hin')) as H1.
    pose proof (Hmin' m (proj1 (Hsame m) Hin)) as H2.
    destruct ds as [|d ds]; [contradiction|].
    destruct ds' as [|d' ds']; [contradiction|].
    simpl Nat.eqb. cbv iota. f_equal. apply ordinal_injective. lia.
Qed.

(** X21. The diagnostics of a component are an unordered list, and
    [maxSeverity] treats them so: it gives the same result for two lists
    concatenated in either order and for a list and its reverse. *)
Theorem maxSeverity_order_independent (ds more : list Diagnostic.t) :
  maxSeverity (Some (ds ++ more)%list) = maxSeverity (Some (more ++ ds)%list)
  /\ maxSeverity (Some (rev ds)) = maxSeverity (Some ds).
Proof.
  split; apply maxSeverity_same_elements; intros x.
  - rewrite !in_app_iff. tauto.
  - symmetry. apply in_rev.
Qed.

(** X22. Asked for the empty field name, the getter returns every
    diagnostic that is for the model path of the component, and every
    diagnostic when the component has no model path; without diagnostics
    it returns none. *)
Theorem getter_empty_field (props : ShowsDiagnostics) (prop : string) :
  diagnosticGetterImplementation props ""
  = match propsDiagnostics props with
    | Some diagnostics => diagnosticsFor diagnostics (modelPathOrEmpty props)
    | None => []
    end
  /\ diagnosticGetterImplementation
       {| propsDiagnostics := propsDiagnostics props; modelPath := None |} ""
     = match propsDiagnostics props with
       | Some diagnostics => diagnostics
       | None => []
       end
  /\ diagnosticGetterImplementation
       {| propsDiagnostics := None; modelPath := modelPath props |} prop = []
  /\ diagnosticGetterImplementation
       {| propsDiagnostics := Some []; modelPath := modelPath props |} prop = [].
Proof.
  unfold diagnosticGetterImplementation. simpl.
  split; [|split; [|split; reflexivity]].
  - destruct (propsDiagnostics props) as [[|d ds]|]; try reflexivity.
    + unfold diagnosticsFor. simpl.
      now destruct (modelPathOrEmpty props =? ObjectPath.EMPTY).
    + simpl Nat.eqb. cbv iota. unfold ObjectPath.extend. simpl ObjectPath.createPart.
      now rewrite concat_empty_r.
  - destruct (propsDiagnostics props) as [[|d ds]|]; reflexivity.
Qed.

(** X23. For a component whose model path was created from parts [ms], a
    field name [prop] and diagnostics whose paths were created from parts,
    all with well-behaved field names, the getter returns a diagnostic of
    the props exactly when the parts of its path open with [ms] followed
    by [prop]. *)
Theorem getter_selects_field
  (props : ShowsDiagnostics) (diagnostics : list Diagnostic.t)
  (ms ps : list Part) (prop : string) (d : Diagnostic.t) :
  propsDiagnostics props = Some diagnostics ->
  modelPath props = Some (ObjectPath.create ms) ->
  Diagnostic.path d = ObjectPath.create ps ->
  forallb safePart ms = true -> safeName prop = true -> forallb safePart ps = true ->
  (In d (diagnosticGetterImplementation props prop)
   <-> In d diagnostics
       /\ exists ps1 ps2,
            ps = (ps1 ++ ps2)%list
            /\ map ObjectPath.createPart ps1
               = map ObjectPath.createPart (ms ++ [PStr prop])).
Proof.
  intros Hprops Hmodel Hpath Sms Sprop Sps.
  assert (Hprefix : ObjectPath.extend (modelPathOrEmpty props) (PStr prop)
                    = ObjectPath.create (ms ++ [PStr prop])).
  { unfold modelPathOrEmpty. rewrite Hmodel, create_app.
    destruct (JsString.isEmpty (ObjectPath.create ms)) eqn:E; [|reflexivity].
    apply isEmpty_true in E. now rewrite E. }
  assert (Sall : forallb safePart (ms ++ [PStr prop]) = true).
  { rewrite forallb_app, Sms. simpl. now rewrite Sprop. }
  assert (Hiff : Diagnostic.isFor d (ObjectPath.create (ms ++ [PStr prop])) = true
                 <-> exists ps1 ps2,
                       ps = (ps1 ++ ps2)%list
                       /\ map ObjectPath.createPart ps1
                          = map ObjectPath.createPart (ms ++ [PStr prop])).
  { unfold Diagnostic.isFor. rewrite Hpath. split.
    - now apply startsWith_created_parts.
    - intros (ps1 & ps2 & -> & Hmap). now apply startsWith_parts_back. }
  unfold diagnosticGetterImplementation. rewrite Hprops, Hprefix, <- Hiff.
  destruct diagnostics as [|d0 ds].
  - simpl. tauto.
  - simpl Nat.eqb. cbv iota. rewrite diagnosticsFor_filter, filter_In. reflexivity.
Qed.

Lemma getter_selects_field_witness :
  In errorEntry
     (diagnosticGetterImplementation
        {| propsDiagnostics := Some [warningEntry; errorEntry];
           modelPath := Some (ObjectPath.create []) |}
        "name").
Proof.
  apply (getter_selects_field
           {| propsDiagnostics := Some [warningEntry; errorEntry];
              modelPath := Some (ObjectPath.create []) |}
           [warningEntry; errorEntry] [] [PStr "name"] "name" errorEntry);
    try reflexivity.
  split.
  - right. left. reflexivity.
  - exists [PStr "name"], []. split; reflexivity.
Defined.

End DiagnosticOrder.

(** ** What prefixing a path leaves alone *)

Section PrefixInvariance.

Context {A : Type} (key : A -> Z) (g : A -> A).
Hypothesis key_g : forall x, key (g x) = key x.

Lemma insertBy_map (x : A) (xs : list A) :
  Lodash.insertBy key (g x) (map g xs) = map g (Lodash.insertBy key x xs).
Proof.
  induction xs as [|y ys IH]; [reflexivity|].
  simpl. rewrite !key_g. destruct (key x <=? key y)%Z; [reflexivity|].
  simpl. now rewrite IH.
Qed.

Lemma sortBy_map (xs : list A) :
  Lodash.sortBy (map g xs) key = map g (Lodash.sortBy xs key).
Proof.
  unfold Lodash.sortBy. induction xs as [|x xs IH]; [reflexivity|].
  simpl. now rewrite IH, insertBy_map.
Qed.

End PrefixInvariance.

Section PrefixedDiagnostics.

(** X24. Putting a property name in front of the paths, as
    [validateProperty] and [forList] do, changes nothing else: the most
    severe severity, the presence of errors and the flattened messages of
    the diagnostics are the same before and after. *)
Theorem prefixPath_keeps_severity_and_messages
  (propName : Part) (e : Entity.t) :
  let ds := Entity.diagnostics e in
  maxSeverity (Some (map (prefixPath propName) ds)) = maxSeverity (Some ds)
  /\ Entity.hasErrors (Entity.withDiagnostics e (map (prefixPath propName) ds))
     = Entity.hasErrors e
  /\ map flattenMessages (map (prefixPath propName) ds) = map flattenMessages ds
  /\ map Diagnostic.type (map (prefixPath propName) ds) = map Diagnostic.type ds.
Proof.
  simpl. set (ds := Entity.diagnostics e). split; [|split; [|split]].
  - unfold maxSeverity. rewrite length_map.
    destruct (List.length ds =? 0)%nat; [reflexivity|].
    rewrite (sortBy_map (fun d => Severity.ordinal (Diagnostic.severity d))
               (prefixPath propName)) by reflexivity.
    now destruct (Lodash.sortBy ds _).
  - unfold Entity.hasErrors. simpl. fold ds. clearbody ds.
    induction ds as [|d ds IH]; [reflexivity|]. simpl. now rewrite IH.
  - rewrite map_map. now apply map_ext.
  - rewrite map_map. now apply map_ext.
Qed.

(** X25. An edit followed by a save whose promise resolves to undefined
    ends with the edited value as the saved value and no draft, when the
    edited value is truthy and the hook stays mounted. *)
Theorem edit_then_save_keeps_edit (h : UseEntity.Hook) (v : JsVal) (rendered : bool) :
  UseEntity.isUnmounted h = false ->
  Js.truthy v = true ->
  let edited := UseEntity.render (UseEntity.liveValidator h) (UseEntity.update v h) in
  let e := UseEntity.state (fst (UseEntity.save (Resolved JUndefined) rendered edited)) in
  Entity.saved e = v
  /\ Entity.draft e = JNull
  /\ Entity.latestValue e = v
  /\ hasUnsavedChanges e = false
  /\ Entity.isSaving e = Some false.
Proof.
  intros Hlive Hv. unfold UseEntity.save, UseEntity.saveBegin, UseEntity.saveSettle,
    UseEntity.render, UseEntity.update, UseEntity.setInner.
  simpl. rewrite !Nat.eqb_refl. simpl.
  destruct rendered; simpl; rewrite ?Nat.eqb_refl; simpl; rewrite Hlive; simpl;
    unfold Entity.latestValue, Js.or; simpl; rewrite Hv; repeat split.
Qed.

Lemma edit_then_save_keeps_edit_witness :
  Entity.saved
    (UseEntity.state
       (fst (UseEntity.save (Resolved JUndefined) true
               (UseEntity.render (UseEntity.liveValidator editedHook)
                  (UseEntity.update (objA 2) editedHook)))))
  = objA 2.
Proof.
  apply (edit_then_save_keeps_edit editedHook (objA 2) true); reflexivity.
Defined.

End PrefixedDiagnostics.
